(** * UWSProvider: connection registry, heartbeat and clustered fan-out

    A shallow embedding of [UWSProvider] (the provider class of the
    repository) together with the two collaborators it drives: the uWebSockets
    application object (connection objects, topic subscriptions, [publish],
    [ping], [close]) and the ioredis pair used as a backbone.

    The transport keeps its connection objects in a store; a connection object
    is referred to by its position in that store, so that the registry entry
    [_connections[id]] and the callbacks of the transport alias the same
    mutable object, as they do in the source. *)

From Stdlib Require Import Ascii.
From stdpp Require Import gmap strings list fin_maps pretty.


(** ** JavaScript values the provider touches *)

(** Truthiness, as used by [||] and by [if (x)]. Numbers are the integral
    milliseconds and ports the provider is configured with. *)
Class Truthy (A : Type) := truthy : A → bool.

Global Instance truthy_bool : Truthy bool := λ b, b.
Global Instance truthy_Z : Truthy Z := λ n, negb (n =? 0)%Z.
Global Instance truthy_string : Truthy string :=
  λ s, match s with EmptyString => false | String _ _ => true end.
(** [None] stands for [undefined]. *)
Global Instance truthy_option {A} `{Truthy A} : Truthy (option A) :=
  λ o, match o with Some a => truthy a | None => false end.

(** [a || b] on possibly-undefined operands. *)
Definition js_or {A} `{Truthy A} (a b : option A) : option A :=
  if truthy a then a else b.

(** [s.substr(start)] *)
Definition substr (start : nat) (s : string) : string :=
  String.substring start (String.length s - start) s.

(** Arguments of an event: the duck-typed positional values of a packet. *)
#[local] Set Warnings "-register-all".
Inductive Value :=
| VNull
| VBool (b : bool)
| VNum (n : Z)
| VStr (s : string)
| VBin (bytes : list Byte.byte)
| VArr (items : list Value).
#[local] Set Warnings "register-all".

(** Modelled from the spec: types/TeckosPacketType is not among the sources;
    the spec names the tags [EVENT] and [ACK]. *)
Inductive TeckosPacketType := EVENT | ACK.

(** The object literal [{type, data}] that [toAll] and [to] encode. *)
Record TeckosPacket := mkPacket {
  type : TeckosPacketType;
  data : list Value
}.

(** Modelled from the spec: types/TeckosOptions is not among the sources; its
    keys are the four the constructor reads, each of them optional. *)
Record TeckosOptions := mkOptions {
  redisUrl : option string;
  pingInterval : option Z;
  pingTimeout : option Z;
  debug : option bool
}.

Definition DEFAULT_OPTION : TeckosOptions :=
  {| redisUrl := None;
     pingInterval := Some 25000%Z;
     pingTimeout := Some 5000%Z;
     debug := None |}.

(** The object literal assigned to [this._options] in the constructor;
    [options?.k] is [options ≫= k]. *)
Definition merge_options (options : option TeckosOptions) : TeckosOptions :=
  {| redisUrl := js_or (options ≫= redisUrl) None;
     pingInterval := js_or (options ≫= pingInterval) (pingInterval DEFAULT_OPTION);
     pingTimeout := js_or (options ≫= pingInterval) (pingTimeout DEFAULT_OPTION);
     debug := options ≫= debug |}.

(** ** Console *)

Inductive LogEntry :=
| ConsoleLog (line : string)
| ConsoleError (line : string).

Definition is_error (e : LogEntry) : bool :=
  match e with ConsoleError _ => true | ConsoleLog _ => false end.

(** ** Outcome of code that may throw *)

Inductive Res (A : Type) :=
| Ok (a : A)
| Thrown (e : string).
Arguments Ok {A} a.
Arguments Thrown {A} e.

Global Instance res_ret : MRet Res := λ A a, Ok a.
Global Instance res_bind : MBind Res := λ A B k r,
  match r with Ok a => k a | Thrown e => Thrown e end.
Global Instance res_fmap : FMap Res := λ A B f r,
  match r with Ok a => Ok (f a) | Thrown e => Thrown e end.

(** ** The model: transport objects, socket handles, provider *)

Section Model.
(** The wire form of a packet. The provider never looks inside it. *)
Context {Buffer : Type}.
(** [encodePacket] of util/Converter, which is not among the sources. *)
Variable encodePacket : TeckosPacket → Buffer.
(** The [options] argument of the constructor; the callbacks installed by
    the constructor close over it. *)
Variable options : option TeckosOptions.

(** A uWebSockets connection object, with the two fields the provider
    attaches to it ([id], [alive]) and what the transport did with it. *)
Record WebSocket := mkWS {
  ws_id : string;
  ws_alive : bool;
  ws_topics : gset string;
  ws_inbox : list Buffer;
  ws_pings : list string;
  ws_closed : bool
}.

Definition ws_set_alive (b : bool) (ws : WebSocket) : WebSocket :=
  mkWS (ws_id ws) b (ws_topics ws) (ws_inbox ws) (ws_pings ws) (ws_closed ws).

(** [ws.subscribe(topic)] *)
Definition ws_subscribe (topic : string) (ws : WebSocket) : WebSocket :=
  mkWS (ws_id ws) (ws_alive ws) ({[topic]} ∪ ws_topics ws) (ws_inbox ws)
       (ws_pings ws) (ws_closed ws).

(** [ws.ping(payload)] on an open connection *)
Definition ws_ping (payload : string) (ws : WebSocket) : WebSocket :=
  mkWS (ws_id ws) (ws_alive ws) (ws_topics ws) (ws_inbox ws)
       (ws_pings ws ++ [payload]) (ws_closed ws).

(** [ws.alive = false; ws.ping('hey')] *)
Definition ws_probe (ws : WebSocket) : WebSocket :=
  ws_ping "hey" (ws_set_alive false ws).

(** What the transport does to the object when the connection ends: it is
    closed and leaves every topic. *)
Definition ws_end (ws : WebSocket) : WebSocket :=
  mkWS (ws_id ws) (ws_alive ws) ∅ (ws_inbox ws) (ws_pings ws) true.

(** Delivery of one published message to one connection object. *)
Definition ws_deliver (topic : string) (message : Buffer) (ws : WebSocket)
  : WebSocket :=
  if bool_decide (topic ∈ ws_topics ws)
  then mkWS (ws_id ws) (ws_alive ws) (ws_topics ws) (ws_inbox ws ++ [message])
            (ws_pings ws) (ws_closed ws)
  else ws.

(** [app.publish(topic, message)]: every subscriber of the topic gets the
    message once. *)
Definition app_publish (topic : string) (message : Buffer)
    (app : list WebSocket) : list WebSocket :=
  ws_deliver topic message <$> app.

(** Modelled from the spec: the class [UWSSocket] (file ./UWSSocket) is not
    part of the sources. A Connection Handle is
    [{identity, transportRef, liveness, groups}]; the liveness flag is the
    [alive] field of the transport object the handle refers to. *)
Record UWSSocket := mkSocket {
  sock_id : string;
  sock_ws : nat;
  sock_debug : option bool;
  sock_groups : gset string
}.

(** [new UWSSocket(id, ws, debug)] *)
Definition UWSSocket_new (id : string) (ws : nat) (dbg : option bool)
  : UWSSocket := mkSocket id ws dbg ∅.

(** What the application saw happen: a connection handler was called, with
    the handle of that identity or with [undefined] ([None]); a handle was
    given a frame; a handle was told that its connection is gone. *)
Inductive Notice :=
| HandlerCalled (handler : string) (handle : option string)
| FrameReceived (id : string) (frame : Buffer)
| Disconnected (id : string).

(** What a connection handler does with the handle it is given: it joins
    groups and it may disconnect. *)
Inductive HandleCall :=
| CallJoin (group : string)
| CallDisconnect.

(** Modelled from the spec: types/ITeckosSocketHandler is not among the
    sources. It is a callback of the application, called with what the
    registry holds for the new connection (a handle, or [undefined]); it
    makes calls on that handle, in order, and then returns or throws. The
    name tells the callbacks apart in the record of calls. *)
Record ITeckosSocketHandler := mkHandler {
  h_name : string;
  h_body : option UWSSocket → list HandleCall * option string
}.

Record UWSProvider := mkProvider {
  _app : list WebSocket;
  _options : TeckosOptions;
  (** the publishing client: what was published on which channel *)
  _pub : option (list (string * Buffer));
  (** the subscribing client: its channel and pattern subscriptions *)
  _sub : option (list string);
  _connections : gmap string UWSSocket;
  _handlers : list ITeckosSocketHandler;
  console : list LogEntry;
  notices : list Notice
}.

Definition set_app (app : list WebSocket) (p : UWSProvider) : UWSProvider :=
  mkProvider app (_options p) (_pub p) (_sub p) (_connections p) (_handlers p)
             (console p) (notices p).
Definition set_pub (pub : option (list (string * Buffer))) (p : UWSProvider)
  : UWSProvider :=
  mkProvider (_app p) (_options p) pub (_sub p) (_connections p) (_handlers p)
             (console p) (notices p).
Definition set_connections (c : gmap string UWSSocket) (p : UWSProvider)
  : UWSProvider :=
  mkProvider (_app p) (_options p) (_pub p) (_sub p) c (_handlers p)
             (console p) (notices p).
Definition set_handlers (hs : list ITeckosSocketHandler) (p : UWSProvider)
  : UWSProvider :=
  mkProvider (_app p) (_options p) (_pub p) (_sub p) (_connections p) hs
             (console p) (notices p).
Definition console_log (line : string) (p : UWSProvider) : UWSProvider :=
  mkProvider (_app p) (_options p) (_pub p) (_sub p) (_connections p)
             (_handlers p) (console p ++ [ConsoleLog line]) (notices p).
Definition console_error (line : string) (p : UWSProvider) : UWSProvider :=
  mkProvider (_app p) (_options p) (_pub p) (_sub p) (_connections p)
             (_handlers p) (console p ++ [ConsoleError line]) (notices p).
Definition notify (n : Notice) (p : UWSProvider) : UWSProvider :=
  mkProvider (_app p) (_options p) (_pub p) (_sub p) (_connections p)
             (_handlers p) (console p) (notices p ++ [n]).


(** [if (debug) console.log(line)] *)
Definition debug_log (dbg : option bool) (line : string) (p : UWSProvider)
  : UWSProvider :=
  if truthy dbg then console_log line p else p.

(** *** Constructor *)

(** [new UWSProvider(app, options)] on a fresh application object. With a
    truthy [redisUrl] the two clients are created and the subscriber
    subscribes to ['a'] and pattern-subscribes to ['g.*']. *)
Definition UWSProvider_new : UWSProvider :=
  let opts := merge_options options in
  let p := mkProvider [] opts None None ∅ [] [] [] in
  match redisUrl opts with
  | Some url =>
      if truthy url then
        let p := debug_log (debug opts) ("Using REDIS at " +:+ url) p in
        mkProvider (_app p) (_options p) (Some []) (Some ["a"; "g.*"])
                   (_connections p) (_handlers p) (console p) (notices p)
      else p
  | None => p
  end.

(** *** generateUUID *)

Definition hex_digit (n : N) : ascii :=
  match n with
  | 0 => "0" | 1 => "1" | 2 => "2" | 3 => "3" | 4 => "4" | 5 => "5"
  | 6 => "6" | 7 => "7" | 8 => "8" | 9 => "9" | 10 => "a" | 11 => "b"
  | 12 => "c" | 13 => "d" | 14 => "e" | _ => "f"
  end%N%char.

(** [buf.toString('hex')] *)
Fixpoint to_hex (bytes : list Byte.byte) : string :=
  match bytes with
  | [] => EmptyString
  | b :: rest =>
      let n := Byte.to_N b in
      String (hex_digit (n / 16)) (String (hex_digit (n mod 16)) (to_hex rest))
  end.

(** Reading a hexadecimal string back, two digits per byte. *)
Definition unhex_digit (c : ascii) : N :=
  (if Ascii.eqb c "0" then 0 else if Ascii.eqb c "1" then 1
   else if Ascii.eqb c "2" then 2 else if Ascii.eqb c "3" then 3
   else if Ascii.eqb c "4" then 4 else if Ascii.eqb c "5" then 5
   else if Ascii.eqb c "6" then 6 else if Ascii.eqb c "7" then 7
   else if Ascii.eqb c "8" then 8 else if Ascii.eqb c "9" then 9
   else if Ascii.eqb c "a" then 10 else if Ascii.eqb c "b" then 11
   else if Ascii.eqb c "c" then 12 else if Ascii.eqb c "d" then 13
   else if Ascii.eqb c "e" then 14 else 15)%N%char.

Fixpoint of_hex (s : string) : list (option Byte.byte) :=
  match s with
  | String hi (String lo rest) =>
      Byte.of_N (unhex_digit hi * 16 + unhex_digit lo) :: of_hex rest
  | _ => []
  end.

(** [generateUUID()], given the 16 bytes [crypto.randomBytes(16)] drew. *)
Definition generateUUID (randomBytes : list Byte.byte) : string :=
  to_hex randomBytes.

(** *** Methods of the socket handle *)

(** Modelled from the spec: [UWSSocket.onMessage] (the Connection Handle's
    [onFrame]) decodes the frame and hands it to the application; decoding
    errors and handler exceptions are logged and never propagate. *)
Definition sock_onMessage (sock : UWSSocket) (buffer : Buffer)
    (p : UWSProvider) : UWSProvider :=
  notify (FrameReceived (sock_id sock) buffer) p.

(** Modelled from the spec: [UWSSocket.onDisconnect] tells the application
    that the handle is gone. *)
Definition sock_onDisconnect (sock : UWSSocket) (p : UWSProvider)
    : UWSProvider :=
  notify (Disconnected (sock_id sock)) p.

(** *** Callbacks installed on the application object by [app.ws] *)

(** [pong] *)
Definition on_pong (w : nat) (p : UWSProvider) : UWSProvider :=
  set_app (alter (ws_set_alive true) w (_app p)) p.

(** [message] *)
Definition on_message (w : nat) (buffer : Buffer) (p : UWSProvider)
    : UWSProvider :=
  match _app p !! w with
  | None => p
  | Some ws =>
      let id := ws_id ws in
      match _connections p !! id with
      | Some sock => sock_onMessage sock buffer p
      | None =>
          console_error ("Got message from unknown connection: " +:+ id) p
      end
  end.

(** [drain] *)
Definition on_drain (w : nat) (p : UWSProvider) : UWSProvider :=
  match _app p !! w with
  | None => p
  | Some ws => debug_log (options ≫= debug) ("Drain: " +:+ ws_id ws) p
  end.

(** [close] *)
Definition on_close (w : nat) (p : UWSProvider) : UWSProvider :=
  match _app p !! w with
  | None => p
  | Some ws =>
      let id := ws_id ws in
      match _connections p !! id with
      | Some sock =>
          let p := debug_log (debug (_options p))
                     ("Client " +:+ id +:+ " disconnected, removing from registry")
                     p in
          let p := sock_onDisconnect sock p in
          set_connections (delete id (_connections p)) p
      | None => p
      end
  end.

(** The end of a connection, whoever asked for it: the transport retires the
    object and calls the [close] callback at once. Nothing happens for an
    object that is already closed. *)
Definition ws_close (w : nat) (p : UWSProvider) : UWSProvider :=
  match _app p !! w with
  | None => p
  | Some ws =>
      if ws_closed ws then p
      else on_close w (set_app (alter ws_end w (_app p)) p)
  end.

(** Modelled from the spec: [UWSSocket.disconnect] (the Connection Handle's
    [close()]) is idempotent, closes the connection at the transport and so
    signals the registry to drop the handle. *)
Definition sock_disconnect (sock : UWSSocket) (p : UWSProvider) : UWSProvider :=
  ws_close (sock_ws sock) p.

(** Modelled from the spec: [UWSSocket.join(group)] subscribes the connection
    to the topic named after the group and records the membership. *)
Definition sock_join (id group : string) (p : UWSProvider) : UWSProvider :=
  match _connections p !! id with
  | None => p
  | Some sock =>
      let sock' := mkSocket (sock_id sock) (sock_ws sock) (sock_debug sock)
                            ({[group]} ∪ sock_groups sock) in
      let p := set_app (alter (ws_subscribe group) (sock_ws sock) (_app p)) p in
      set_connections (<[id := sock']> (_connections p)) p
  end.

(** One call of a handler on the handle it holds. *)
Definition do_call (sock : UWSSocket) (call : HandleCall) (p : UWSProvider)
    : UWSProvider :=
  match call with
  | CallJoin group => sock_join (sock_id sock) group p
  | CallDisconnect => sock_disconnect sock p
  end.

(** The calls of one handler; there is nothing to call on [undefined]. *)
Definition do_calls (handle : option UWSSocket) (calls : list HandleCall)
    (p : UWSProvider) : UWSProvider :=
  match handle with
  | Some sock => foldl (λ p call, do_call sock call p) p calls
  | None => p
  end.

(** [this._handlers.forEach((handler) => handler(this._connections[id]))]:
    the registry is read anew for each handler. The second component is the
    exception that ended the loop, if any. *)
Fixpoint forEach_handler (hs : list ITeckosSocketHandler) (id : string)
    (p : UWSProvider) : UWSProvider * option string :=
  match hs with
  | [] => (p, None)
  | handler :: rest =>
      let handle := _connections p !! id in
      let p := notify (HandlerCalled (h_name handler) (sock_id <$> handle)) p in
      let p := do_calls handle (h_body handler handle).1 p in
      match (h_body handler handle).2 with
      | Some thrown => (p, Some thrown)
      | None => forEach_handler rest id p
      end
  end.

(** The first half of [open]: the transport hands over a new connection
    object, here the next position of the store; it is subscribed to ['a'],
    given its [id] and its flag, and its handle is put into the registry. *)
Definition open_base (randomBytes : list Byte.byte) (p : UWSProvider)
    : UWSProvider :=
  let id := generateUUID randomBytes in
  let w := length (_app p) in
  let ws := mkWS id true {["a"]} [] [] false in
  let p := set_app (_app p ++ [ws]) p in
  let sock := UWSSocket_new id w (options ≫= debug) in
  set_connections (<[id := sock]> (_connections p)) p.

(** [open] *)
Definition on_open (randomBytes : list Byte.byte) (p : UWSProvider)
    : UWSProvider :=
  let id := generateUUID randomBytes in
  let p := open_base randomBytes p in
  match forEach_handler (_handlers p) id p with
  | (p, None) => p
  | (p, Some handlerError) => console_error handlerError p
  end.

(** *** The keep-alive sweep *)

(** [Object.keys(connections)]; [connections] is the registry object itself,
    passed through [setTimeout], so the keys are those at the time the timer
    fires. The enumeration order of the keys is the one of the map. *)
Definition Object_keys (connections : gmap string UWSSocket) : list string :=
  (map_to_list connections).*1.

(** The body of the [forEach] over the keys. Reading [.ws()] off a missing
    entry and pinging a closed connection object both throw. *)
Definition keepAlive_one (uuid : string) (p : UWSProvider) : Res UWSProvider :=
  match _connections p !! uuid with
  | None => Thrown "TypeError: Cannot read properties of undefined"
  | Some sock =>
      match _app p !! sock_ws sock with
      | None => Thrown "TypeError: Cannot read properties of undefined"
      | Some ws =>
          if ws_alive ws then
            if ws_closed ws then Thrown "Invalid access of closed uWS.WebSocket"
            else
              Ok (set_app (alter ws_probe (sock_ws sock) (_app p)) p)
          else
            let p := debug_log (debug (_options p))
                       ("Ping pong timeout for " +:+ uuid
                          +:+ ", disconnecting client...") p in
            Ok (sock_disconnect sock p)
      end
  end.

Fixpoint forEach_keepAlive (uuids : list string) (p : UWSProvider)
    : Res UWSProvider :=
  match uuids with
  | [] => Ok p
  | uuid :: rest => p' ← keepAlive_one uuid p; forEach_keepAlive rest p'
  end.

(** The callback [_keepAliveSockets] schedules; one call is one sweep. The
    re-arming of the timer is the next [Timeout] event. *)
Definition keepAliveSockets (p : UWSProvider) : Res UWSProvider :=
  forEach_keepAlive (Object_keys (_connections p)) p.

(** *** Public operations *)

Definition onConnection (handler : ITeckosSocketHandler) (p : UWSProvider)
    : UWSProvider :=
  set_handlers (_handlers p ++ [handler]) p.

(** The packet [toAll] and [to] build: [args.unshift(event)] then
    [{type: EVENT, data: args}]. A publication the backbone rejects is only
    logged; the backbone is taken to accept every publication. *)
Definition event_packet (event : string) (args : list Value) : TeckosPacket :=
  {| type := EVENT; data := VStr event :: args |}.

Definition toAll (event : string) (args : list Value) (p : UWSProvider)
    : UWSProvider :=
  let buffer := encodePacket (event_packet event args) in
  match _pub p with
  | Some published => set_pub (Some (published ++ [("a", buffer)])) p
  | None =>
      let p := debug_log (debug (_options p))
                 ("Publishing event " +:+ event +:+ " to group a") p in
      set_app (app_publish "a" buffer (_app p)) p
  end.

Definition to (group event : string) (args : list Value) (p : UWSProvider)
    : UWSProvider :=
  let buffer := encodePacket (event_packet event args) in
  match _pub p with
  | Some published =>
      set_pub (Some (published ++ [("g." +:+ group, buffer)])) p
  | None =>
      let p := debug_log (debug (_options p))
                 ("Publishing event " +:+ event +:+ " to group " +:+ group) p in
      set_app (app_publish group buffer (_app p)) p
  end.

(** The state of the promise [listen] returns once the transport has called
    back. *)
Inductive Promise (A : Type) :=
| Resolved (value : A)
| Rejected (error : string).
Arguments Resolved {A} value.
Arguments Rejected {A} error.

(** [listen(port)]; [socket] is what [app.listen] passes to its callback:
    the listen socket ([Some token]), or [false] ([None]). *)
Definition listen (port : Z) (socket : option positive) (p : UWSProvider)
    : Promise UWSProvider :=
  match socket with
  | Some _ => Resolved p
  | None => Rejected ("Could not listen on port " +:+ pretty port)
  end.

(** *** Inbound relay of the backbone *)

(** Listener of ['message'] on the subscribing client. *)
Definition sub_on_message (channel : string) (message : Buffer)
    (p : UWSProvider) : UWSProvider :=
  set_app (app_publish (substr 2 channel) message (_app p)) p.

(** Listener of ['pmessage'], with the parameter names of the source. *)
Definition sub_on_pmessage (_channel pattern : string) (message : Buffer)
    (p : UWSProvider) : UWSProvider :=
  let group := substr 2 pattern in
  let p := debug_log (debug (_options p))
             ("Publishing message from REDIS to group " +:+ group) p in
  set_app (app_publish group message (_app p)) p.

(** A message arrives from the backbone on [channel]. The client emits
    ['message'] with [(channel, message)] for a channel it subscribed to and
    ['pmessage'] with [(pattern, channel, message)] for a channel matching
    ['g.*']. *)
Definition redis_deliver (channel : string) (message : Buffer)
    (p : UWSProvider) : UWSProvider :=
  match _sub p with
  | None => p
  | Some _ =>
      if bool_decide (channel = "a") then sub_on_message channel message p
      else if String.prefix "g." channel
      then sub_on_pmessage "g.*" channel message p
      else p
  end.

(** *** Runs *)

Inductive Event :=
| Open (randomBytes : list Byte.byte)
| Pong (w : nat)
| Message (w : nat) (buffer : Buffer)
| Drain (w : nat)
| Close (w : nat)
| Timeout
| OnConnection (handler : ITeckosSocketHandler)
| ToAll (event : string) (args : list Value)
| To (group event : string) (args : list Value)
| Join (id group : string)
| Backbone (channel : string) (message : Buffer).

Definition step (p : UWSProvider) (ev : Event) : Res UWSProvider :=
  match ev with
  | Open randomBytes => Ok (on_open randomBytes p)
  | Pong w => Ok (on_pong w p)
  | Message w buffer => Ok (on_message w buffer p)
  | Drain w => Ok (on_drain w p)
  | Close w => Ok (ws_close w p)
  | Timeout => keepAliveSockets p
  | OnConnection handler => Ok (onConnection handler p)
  | ToAll event args => Ok (toAll event args p)
  | To group event args => Ok (to group event args p)
  | Join id group => Ok (sock_join id group p)
  | Backbone channel message => Ok (redis_deliver channel message p)
  end.

Fixpoint run (p : UWSProvider) (evs : list Event) : Res UWSProvider :=
  match evs with
  | [] => Ok p
  | ev :: rest => p' ← step p ev; run p' rest
  end.

End Model.

Arguments WebSocket : clear implicits.
Arguments UWSSocket : clear implicits.
Arguments UWSProvider : clear implicits.
Arguments Event : clear implicits.
Arguments Notice : clear implicits.
Arguments Resolved {A} value.
Arguments Rejected {A} error.

Global Instance promise_fmap : FMap Promise := λ A B f r,
  match r with Resolved a => Resolved (f a) | Rejected e => Rejected e end.

(** ** Concrete data for the examples *)

(** A codec whose wire form is the packet itself; it round-trips. *)
Definition loopback_encode (packet : TeckosPacket) : TeckosPacket := packet.
Definition loopback_decode (buffer : TeckosPacket) : option TeckosPacket :=
  Some buffer.

Definition ping42 : TeckosPacket := event_packet "ping" [VNum 42].

(** Three application callbacks: one throws, one returns, one disconnects
    the handle it is given and returns. *)
Definition failing_handler : ITeckosSocketHandler :=
  {| h_name := "first"; h_body := λ _, ([], Some "boom") |}.
Definition quiet_handler : ITeckosSocketHandler :=
  {| h_name := "second"; h_body := λ _, ([], None) |}.
Definition closing_handler : ITeckosSocketHandler :=
  {| h_name := "bouncer"; h_body := λ _, ([CallDisconnect], None) |}.

Definition only_pingTimeout : TeckosOptions :=
  {| redisUrl := None; pingInterval := None; pingTimeout := Some 3000%Z;
     debug := None |}.
Definition both_pings : TeckosOptions :=
  {| redisUrl := None; pingInterval := Some 10000%Z;
     pingTimeout := Some 3000%Z; debug := None |}.
Definition with_redis : TeckosOptions :=
  {| redisUrl := Some "redis://backbone"; pingInterval := None;
     pingTimeout := None; debug := None |}.
Definition with_debug : TeckosOptions :=
  {| redisUrl := None; pingInterval := None; pingTimeout := None;
     debug := Some true |}.

(** The calls of connection handlers among the notices, in order: the name
    of the handler and the identity of the handle it was given. *)
Definition handler_calls {Buffer} (ns : list (Notice Buffer))
    : list (string * option string) :=
  ns ≫= λ n, match n with HandlerCalled h handle => [(h, handle)] | _ => [] end.

(** What [console.error] wrote. *)
Definition errors (lines : list LogEntry) : list LogEntry :=
  List.filter is_error lines.

(** One call of a connection handler: the handler and the argument it was
    given, a handle or [undefined]. *)
Definition Invocation : Type := ITeckosSocketHandler * option UWSSocket.

(** The call as the record of calls shows it. *)
Definition call_of (x : Invocation) : string * option string :=
  (h_name x.1, sock_id <$> x.2).

(** The exception the call ended with, if any. *)
Definition outcome (x : Invocation) : option string := (h_body x.1 x.2).2.

Definition is_disconnect (call : HandleCall) : bool :=
  match call with CallDisconnect => true | CallJoin _ => false end.

(** The handler disconnected the handle it was given. *)
Definition disconnects (x : Invocation) : bool :=
  match x.2 with
  | Some _ => existsb is_disconnect (h_body x.1 x.2).1
  | None => false
  end.

(** The arguments of successive calls for the connection [w] of identity
    [id]: its own handle, until a call disconnects it; [undefined] from then
    on. *)
Fixpoint handles_given (id : string) (w : nat) (invoked : list Invocation)
    : Prop :=
  match invoked with
  | [] => True
  | x :: rest =>
      (∃ sock, x.2 = Some sock ∧ sock_id sock = id ∧ sock_ws sock = w)
      ∧ if disconnects x then Forall (λ y, y.2 = None) rest
        else handles_given id w rest
  end.

(** The connection object [w] that opened with identity [id], while the
    handlers of [open] run and after: it is open, subscribed to ['a'] and
    registered under [id] with its own handle, or it is closed and [id] is
    out of the registry; nothing was sent to it yet. *)
Definition own_object {Buffer} (p : UWSProvider Buffer) (id : string) (w : nat)
    : Prop :=
  ∃ ws, _app p !! w = Some ws ∧ ws_id ws = id
        ∧ ws_pings ws = [] ∧ ws_inbox ws = []
        ∧ ((ws_closed ws = false ∧ "a" ∈ ws_topics ws
            ∧ ∃ sock, _connections p !! id = Some sock
                      ∧ sock_ws sock = w ∧ sock_id sock = id)
           ∨ (ws_closed ws = true ∧ _connections p !! id = None)).

(** What the handlers of [open] and the [catch] after them do to the
    provider, one step at a time, for the connection [w] of identity [id]. *)
Inductive handler_steps {Buffer} (id : string) (w : nat)
    : UWSProvider Buffer → UWSProvider Buffer → Prop :=
| steps_done p : handler_steps id w p p
| steps_notify n p q :
    handler_steps id w (notify n p) q → handler_steps id w p q
| steps_join group p q :
    handler_steps id w (sock_join id group p) q → handler_steps id w p q
| steps_close p q :
    handler_steps id w (ws_close w p) q → handler_steps id w p q
| steps_error e p q :
    handler_steps id w (console_error e p) q → handler_steps id w p q.

(** The random draws of a run, in order. *)
Fixpoint draws {Buffer} (evs : list (Event Buffer)) : list (list Byte.byte) :=
  match evs with
  | [] => []
  | Open randomBytes :: rest => randomBytes :: draws rest
  | _ :: rest => draws rest
  end.

(** ** Well-formed states *)

(** Two versions of a connection object that differ at most in the liveness
    flag and in what was sent to it. *)
Definition same_shape {Buffer} (ws ws' : WebSocket Buffer) : Prop :=
  ws_id ws' = ws_id ws ∧ ws_closed ws' = ws_closed ws
  ∧ ws_topics ws' = ws_topics ws.

(** A registry entry under key [id]: the handle was built with [id], and the
    connection object it refers to carries [id], is open, and is subscribed
    to ['a'] and to the groups the handle joined. *)
Definition handle_ok {Buffer} (p : UWSProvider Buffer) (id : string)
    (sock : UWSSocket) : Prop :=
  sock_id sock = id
  ∧ ∃ ws, _app p !! sock_ws sock = Some ws ∧ ws_id ws = id
          ∧ ws_closed ws = false
          ∧ ws_topics ws = {["a"]} ∪ sock_groups sock.

Definition wf {Buffer} (p : UWSProvider Buffer) : Prop :=
  (∀ id sock, _connections p !! id = Some sock → handle_ok p id sock)
  ∧ (∀ w ws, _app p !! w = Some ws → ws_closed ws = true → ws_topics ws = ∅).

(** The identities carried by the connection objects, in order of arrival. *)
Definition ids {Buffer} (p : UWSProvider Buffer) : list string :=
  ws_id <$> _app p.

(** The identities a run hands out. *)
Definition opened {Buffer} (evs : list (Event Buffer)) : list string :=
  generateUUID <$> draws evs.

(** What a broadcast or a relayed message does to the store: nothing, or one
    local publication. *)
Definition maybe_publish {Buffer} (o : option (string * Buffer))
    (app : list (WebSocket Buffer)) : list (WebSocket Buffer) :=
  match o with
  | Some (topic, message) => app_publish topic message app
  | None => app
  end.

(** Whether connection object [w], whose flag is [alive] at the start,
    answers every probe of a run: between a sweep and the sweep before it
    (or the start, if the flag is set there) a pong of [w] arrives. *)
Fixpoint answers {Buffer} (w : nat) (alive : bool) (evs : list (Event Buffer))
    : bool :=
  match evs with
  | [] => true
  | Timeout :: rest => alive && answers w false rest
  | Pong w' :: rest => answers w (alive || bool_decide (w' = w)) rest
  | _ :: rest => answers w alive rest
  end.

(** Connection object [w], of identity [id], has an unanswered probe or is
    gone: it is closed, or its flag is clear while its handle is registered. *)
Definition unanswered {Buffer} (p : UWSProvider Buffer) (w : nat) (id : string)
    : Prop :=
  ∃ ws, _app p !! w = Some ws ∧ ws_id ws = id
        ∧ (ws_closed ws = true
           ∨ (ws_alive ws = false
              ∧ ∃ sock, _connections p !! id = Some sock ∧ sock_ws sock = w)).

(** Whether the provider was built with a backbone. *)
Definition has_backbone {Buffer} (p : UWSProvider Buffer) : bool :=
  match _pub p with Some _ => true | None => false end.

(** What the constructor fixes once and for all. *)
Definition config {Buffer} (p : UWSProvider Buffer)
    : TeckosOptions * option (list string) * bool :=
  (_options p, _sub p, has_backbone p).

(** ** What can be observed apart from diagnostic logging *)

(** A handle without its copy of the debug flag. *)
Definition erase_sock (sock : UWSSocket) : UWSSocket :=
  mkSocket (sock_id sock) (sock_ws sock) None (sock_groups sock).

Definition erase_options (o : TeckosOptions) : TeckosOptions :=
  mkOptions (redisUrl o) (pingInterval o) (pingTimeout o) None.

(** The constructor argument with the debug flag left out. *)
Definition quiet (options : option TeckosOptions) : option TeckosOptions :=
  Some (mkOptions (options ≫= redisUrl) (options ≫= pingInterval)
                  (options ≫= pingTimeout) None).

(** The state of the provider and of its collaborators without the debug
    flag and without the lines written by [console.log]. *)
Definition observable {Buffer} (p : UWSProvider Buffer) : UWSProvider Buffer :=
  mkProvider (_app p) (erase_options (_options p)) (_pub p) (_sub p)
             (erase_sock <$> _connections p) (_handlers p)
             (List.filter is_error (console p)) (notices p).

(** An application callback that does not read the debug flag kept inside
    the handle. *)
Definition debug_blind (h : ITeckosSocketHandler) : Prop :=
  ∀ handle, h_body h (erase_sock <$> handle) = h_body h handle.

Definition blind_event {Buffer} (ev : Event Buffer) : Prop :=
  match ev with OnConnection h => debug_blind h | _ => True end.

(** The handler an event registers. *)
Definition registers {Buffer} (ev : Event Buffer) : list ITeckosSocketHandler :=
  match ev with OnConnection h => [h] | _ => [] end.

(** ** Vocabulary for the properties of whole runs *)

(** What an event publishes on the backbone when there is one. *)
Definition publication {Buffer} (encodePacket : TeckosPacket → Buffer)
    (ev : Event Buffer) : list (string * Buffer) :=
  match ev with
  | ToAll event args => [("a", encodePacket (event_packet event args))]
  | To group event args =>
      [("g." +:+ group, encodePacket (event_packet event args))]
  | _ => []
  end.

Definition publications {Buffer} (encodePacket : TeckosPacket → Buffer)
    (evs : list (Event Buffer)) : list (string * Buffer) :=
  evs ≫= publication encodePacket.

(** The ways one event can change one connection object. *)
Definition object_change {Buffer} (ev : Event Buffer)
    (ws ws' : WebSocket Buffer) : Prop :=
  match ev with
  | Pong _ => ws' = ws ∨ ws' = ws_set_alive true ws
  | Close _ => ws' = ws ∨ ws' = ws_end ws
  | Timeout => ws' = ws ∨ ws' = ws_probe ws ∨ ws' = ws_end ws
  | Join _ group => ws' = ws ∨ ws' = ws_subscribe group ws
  | ToAll _ _ | To _ _ _ | Backbone _ _ =>
      ws' = ws ∨ ∃ topic message, ws' = ws_deliver topic message ws
  | _ => ws' = ws
  end.

(** Every open connection object is subscribed to ['a']. *)
Definition all_subscribed {Buffer} (p : UWSProvider Buffer) : Prop :=
  ∀ w ws, _app p !! w = Some ws → ws_closed ws = false → "a" ∈ ws_topics ws.

(** Every open connection object has its own handle in the registry. *)
Definition all_registered {Buffer} (p : UWSProvider Buffer) : Prop :=
  ∀ w ws, _app p !! w = Some ws → ws_closed ws = false →
    ∃ sock, _connections p !! ws_id ws = Some sock ∧ sock_ws sock = w.

(** The characters [toString('hex')] produces. *)
Definition is_hex_digit (c : ascii) : bool :=
  match unhex_digit c with
  | 15%N => Ascii.eqb c "f"
  | _ => true
  end.

(** The number of sweeps of a run. *)
Definition is_sweep {Buffer} (ev : Event Buffer) : bool :=
  match ev with Timeout => true | _ => false end.

Definition sweeps {Buffer} (evs : list (Event Buffer)) : nat :=
  length (List.filter is_sweep evs).

(** ** npm-scripts.mjs: the test that guards the unpacking *)

(** [s.endsWith(suffix)]: some tail of [s] is the suffix. *)
Fixpoint endsWith (suffix s : string) : bool :=
  String.eqb s suffix
  || match s with
     | EmptyString => false
     | String _ rest => endsWith suffix rest
     end.

(** The values [a || files.find(...)] can take for a boolean [a]: [true], the
    file found, or [undefined]. *)
Inductive TrueOrFile :=
| JSTrue
| JSFile (file : string)
| JSUndefined.

Global Instance truthy_TrueOrFile : Truthy TrueOrFile := λ v,
  match v with
  | JSTrue => true
  | JSFile file => truthy file
  | JSUndefined => false
  end.

(** [hasNoBinaries] of [buildBinaries]:
    [!fs.existsSync("./uws") || fs.readdirSync('./uws').find(file => file.endsWith(".node"))];
    [uws] is the listing of the directory, [None] when it does not exist. The
    directory is only read when it exists. *)
Definition hasNoBinaries (uws : option (list string)) : TrueOrFile :=
  match uws with
  | None => JSTrue
  | Some files =>
      match List.find (endsWith ".node") files with
      | Some file => JSFile file
      | None => JSUndefined
      end
  end.

(** ** Configuration *)

Lemma merge_options_pingInterval (options : option TeckosOptions) :
  pingInterval (merge_options options)
  = js_or (options ≫= pingInterval) (Some 25000%Z).
Proof. reflexivity. Qed.

(** The stored [pingTimeout] never reads the caller's [pingTimeout]. *)
Lemma merge_options_pingTimeout (options : option TeckosOptions) :
  pingTimeout (merge_options options)
  = js_or (options ≫= pingInterval) (Some 5000%Z).
Proof. reflexivity. Qed.

(** C3, at the inputs where the code departs from it: a caller-supplied
    [pingTimeout] of 3000 is stored as 5000 when no [pingInterval] is given,
    and as the caller's [pingInterval] (10000) when one is given. *)
Theorem C3_pingTimeout_not_stored :
  pingTimeout (merge_options (Some only_pingTimeout)) = Some 5000%Z
  ∧ pingTimeout (merge_options (Some both_pings)) = Some 10000%Z
  ∧ pingInterval (merge_options (Some both_pings)) = Some 10000%Z.
Proof. repeat split; reflexivity. Qed.

(** ** listen *)

(** C8: the promise of [listen(port)] resolves, with the provider, exactly
    when the transport calls back with a listen socket, and is rejected with
    the error naming the port exactly when it calls back with [false]. *)
Theorem C8_listen_settles {Buffer} (port : Z) (socket : option positive)
    (p : UWSProvider Buffer) :
  (listen port socket p = Resolved p ↔ is_Some socket)
  ∧ (listen port socket p
       = Rejected ("Could not listen on port " +:+ pretty port)
     ↔ socket = None)
  ∧ (∀ q, listen port socket p = Resolved q → q = p).
Proof.
  destruct socket as [tok|]; simpl.
  - split_and!; [split; eauto | split; discriminate | by intros q [= ->]].
  - split_and!; [split; [discriminate | by intros [? ?]] | done | discriminate].
Qed.

(** ** generateUUID *)

Lemma of_hex_to_hex (bytes : list Byte.byte) :
  of_hex (to_hex bytes) = Some <$> bytes.
Proof.
  induction bytes as [|b bytes IH]; [done|].
  simpl. rewrite IH. f_equal. by destruct b.
Qed.

Lemma generateUUID_inj (r1 r2 : list Byte.byte) :
  generateUUID r1 = generateUUID r2 → r1 = r2.
Proof.
  unfold generateUUID. intros H.
  assert (Some <$> r1 = Some <$> r2) as E
    by (rewrite <- !of_hex_to_hex; by f_equal).
  by apply (inj (fmap Some)) in E.
Qed.

(** ** Field-by-field effect of the operations *)

Section Fields.
Context {Buffer : Type}.
Implicit Types (p : UWSProvider Buffer) (ws : WebSocket Buffer).
Implicit Types (sock : UWSSocket) (hs : list ITeckosSocketHandler).

Lemma debug_log_app d l p : _app (debug_log d l p) = _app p.
Proof. unfold debug_log. by destruct (truthy d). Qed.
Lemma debug_log_connections d l p :
  _connections (debug_log d l p) = _connections p.
Proof. unfold debug_log. by destruct (truthy d). Qed.
Lemma debug_log_options d l p : _options (debug_log d l p) = _options p.
Proof. unfold debug_log. by destruct (truthy d). Qed.
Lemma debug_log_pub d l p : _pub (debug_log d l p) = _pub p.
Proof. unfold debug_log. by destruct (truthy d). Qed.
Lemma debug_log_sub d l p : _sub (debug_log d l p) = _sub p.
Proof. unfold debug_log. by destruct (truthy d). Qed.
Lemma debug_log_handlers d l p : _handlers (debug_log d l p) = _handlers p.
Proof. unfold debug_log. by destruct (truthy d). Qed.
Lemma debug_log_notices d l p : notices (debug_log d l p) = notices p.
Proof. unfold debug_log. by destruct (truthy d). Qed.



End Fields.

(** ** Connection handlers *)

Lemma onConnection_appends {Buffer} (h : ITeckosSocketHandler)
    (p : UWSProvider Buffer) :
  _handlers (onConnection h p) = _handlers p ++ [h].
Proof. reflexivity. Qed.

(** ** The registry invariant *)

Section Invariant.
Context {Buffer : Type}.
Variable encodePacket : TeckosPacket → Buffer.
Variable options : option TeckosOptions.
Implicit Types (p : UWSProvider Buffer) (ws : WebSocket Buffer).
Implicit Types (sock : UWSSocket) (app : list (WebSocket Buffer)).

Lemma same_shape_refl ws : same_shape ws ws.
Proof. by repeat split. Qed.

Lemma same_shape_alter f w app :
  (∀ ws, same_shape ws (f ws)) → Forall2 same_shape app (alter f w app).
Proof.
  intros Hf. apply Forall2_alter_r.
  - apply Forall_Forall2_diag, Forall_forall. intros. apply same_shape_refl.
  - intros x y _ _ (? & ? & ?). destruct (Hf y) as (? & ? & ?).
    repeat split; congruence.
Qed.

Lemma same_shape_fmap f app :
  (∀ ws, same_shape ws (f ws)) → Forall2 same_shape app (f <$> app).
Proof.
  intros Hf. apply Forall2_fmap_r, Forall_Forall2_diag, Forall_forall.
  intros. apply Hf.
Qed.

Lemma same_shape_deliver topic (message : Buffer) ws :
  same_shape ws (ws_deliver topic message ws).
Proof. unfold ws_deliver. by case_bool_decide. Qed.

Lemma wf_frame p p' :
  _app p' = _app p → _connections p' = _connections p → wf p → wf p'.
Proof.
  intros Ha Hc [H1 H2]. split.
  - intros id sock. rewrite Hc. intros H. destruct (H1 _ _ H) as (? & ws & ?).
    split; [done|]. exists ws. by rewrite Ha.
  - intros w ws. rewrite Ha. apply H2.
Qed.

Lemma wf_reshape p app' :
  wf p → Forall2 same_shape (_app p) app' → wf (set_app app' p).
Proof.
  intros [H1 H2] HF. split; simpl.
  - intros id sock H. destruct (H1 _ _ H) as (? & ws & Hw & ? & ? & ?).
    split; [done|].
    destruct (Forall2_lookup_l _ _ _ _ _ HF Hw) as (ws' & Hw' & ? & ? & ?).
    exists ws'. split_and!; [exact Hw'|congruence..].
  - intros w ws' Hw' Hcl.
    destruct (Forall2_lookup_r _ _ _ _ _ HF Hw') as (ws & Hw & ? & ? & ?).
    transitivity (ws_topics ws); [done|]. apply (H2 w); congruence.
Qed.

Lemma wf_new : wf (UWSProvider_new (Buffer:=Buffer) options).
Proof.
  unfold UWSProvider_new.
  assert (wf (mkProvider (Buffer:=Buffer) [] (merge_options options) None None
                         ∅ [] [] [])) as Hb by (split; simpl; intros; done).
  destruct (redisUrl (merge_options options)) as [url|]; [|done].
  destruct (truthy url); [|done].
  eapply wf_frame; [..|exact Hb]; simpl.
  - by rewrite debug_log_app.
  - by rewrite debug_log_connections.
Qed.

(** Two registered handles never share a connection object. *)
Lemma wf_handle_inj p id1 id2 sock1 sock2 :
  wf p → _connections p !! id1 = Some sock1 →
  _connections p !! id2 = Some sock2 →
  sock_ws sock1 = sock_ws sock2 → id1 = id2.
Proof.
  intros [H _] E1 E2 Hw.
  destruct (H _ _ E1) as (_ & ws1 & L1 & I1 & _).
  destruct (H _ _ E2) as (_ & ws2 & L2 & I2 & _).
  congruence.
Qed.

(** *** pong, message, drain *)

Lemma on_pong_wf w p : wf p → wf (on_pong w p).
Proof.
  intros H. apply wf_reshape; [done|]. by apply same_shape_alter.
Qed.

Lemma on_message_app w buffer p : _app (on_message w buffer p) = _app p.
Proof.
  unfold on_message. destruct (_app p !! w); [|done].
  by destruct (_connections p !! _).
Qed.

Lemma on_message_connections w buffer p :
  _connections (on_message w buffer p) = _connections p.
Proof.
  unfold on_message. destruct (_app p !! w); [|done].
  by destruct (_connections p !! _).
Qed.

Lemma on_drain_app w p : _app (on_drain options w p) = _app p.
Proof.
  unfold on_drain. destruct (_app p !! w); [|done]. apply debug_log_app.
Qed.

Lemma on_drain_connections w p :
  _connections (on_drain options w p) = _connections p.
Proof.
  unfold on_drain. destruct (_app p !! w); [|done].
  apply debug_log_connections.
Qed.

(** *** close *)

Lemma ws_close_noop w p :
  (∀ ws, _app p !! w = Some ws → ws_closed ws = true) → ws_close w p = p.
Proof.
  intros H. unfold ws_close. destruct (_app p !! w) as [ws|]; [|done].
  by rewrite (H ws eq_refl).
Qed.

Lemma ws_close_app w p ws :
  _app p !! w = Some ws → ws_closed ws = false →
  _app (ws_close w p) = alter ws_end w (_app p).
Proof.
  intros Hw Hcl. unfold ws_close, on_close. rewrite Hw, Hcl. simpl.
  rewrite list_lookup_alter_eq, Hw. simpl.
  destruct (_connections p !! ws_id ws); simpl; [|done].
  by rewrite debug_log_app.
Qed.

Lemma ws_close_connections w p ws :
  _app p !! w = Some ws → ws_closed ws = false →
  _connections (ws_close w p) = delete (ws_id ws) (_connections p).
Proof.
  intros Hw Hcl. unfold ws_close, on_close. rewrite Hw, Hcl. simpl.
  rewrite list_lookup_alter_eq, Hw. simpl.
  destruct (_connections p !! ws_id ws) eqn:E; simpl.
  - by rewrite debug_log_connections.
  - by rewrite delete_id.
Qed.

Lemma ws_close_wf w p : wf p → wf (ws_close w p).
Proof.
  intros Hwf.
  destruct (_app p !! w) as [ws|] eqn:Hw;
    [|by rewrite ws_close_noop by (by rewrite Hw)].
  destruct (ws_closed ws) eqn:Hcl;
    [by rewrite ws_close_noop by (rewrite Hw; by intros ? [= <-])|].
  destruct Hwf as [H1 H2]. split.
  - intros id sock. unfold handle_ok.
    rewrite (ws_close_connections _ _ _ Hw Hcl), (ws_close_app _ _ _ Hw Hcl).
    intros [Hne H]%lookup_delete_Some.
    destruct (H1 _ _ H) as (? & ws1 & Hw1 & Hid & ?). split; [done|].
    exists ws1. split; [|done].
    rewrite list_lookup_alter_ne; [done|]. intros Heq. subst w. congruence.
  - intros w' ws'. rewrite (ws_close_app _ _ _ Hw Hcl).
    destruct (decide (w = w')) as [<-|Hne].
    + rewrite list_lookup_alter_eq, Hw. by intros [= <-].
    + rewrite list_lookup_alter_ne by done. apply H2.
Qed.

(** *** join *)

Lemma sock_join_wf id group p : wf p → wf (sock_join id group p).
Proof.
  intros Hwf. pose proof Hwf as [H1 H2]. unfold sock_join.
  destruct (_connections p !! id) as [sock|] eqn:E; [|done].
  destruct (H1 _ _ E) as (Hsid & ws & Hw & Hid & Hcl & Htop).
  split; simpl.
  - intros id' sock'. intros [[<- <-]|[Hne H]]%lookup_insert_Some; simpl.
    + split; [done|]. exists (ws_subscribe group ws). simpl.
      rewrite list_lookup_alter_eq, Hw. split_and!; try done.
      simpl. rewrite Htop. apply set_eq. intros x.
      rewrite !elem_of_union. tauto.
    + destruct (H1 _ _ H) as (? & ws1 & Hw1 & ?). split; [done|].
      exists ws1. split; [|done]. simpl.
      rewrite list_lookup_alter_ne; [done|].
      intros Heq. apply Hne. by eapply wf_handle_inj.
  - intros w' ws'. destruct (decide (sock_ws sock = w')) as [<-|Hne].
    + rewrite list_lookup_alter_eq, Hw. intros [= <-]. simpl. congruence.
    + rewrite list_lookup_alter_ne by done. apply H2.
Qed.

(** *** broadcasts and the inbound relay *)

Lemma publish_wf topic (message : Buffer) p :
  wf p → wf (set_app (app_publish topic message (_app p)) p).
Proof.
  intros H. apply wf_reshape; [done|].
  apply same_shape_fmap, same_shape_deliver.
Qed.

Lemma toAll_wf event args p : wf p → wf (toAll encodePacket event args p).
Proof.
  intros H. unfold toAll. destruct (_pub p).
  - by eapply wf_frame.
  - eapply wf_frame; [| |apply (publish_wf "a" (encodePacket (event_packet event args)) p H)];
      simpl; by rewrite ?debug_log_app, ?debug_log_connections.
Qed.

Lemma to_wf group event args p :
  wf p → wf (to encodePacket group event args p).
Proof.
  intros H. unfold to. destruct (_pub p).
  - by eapply wf_frame.
  - eapply wf_frame; [| |apply (publish_wf group (encodePacket (event_packet event args)) p H)];
      simpl; by rewrite ?debug_log_app, ?debug_log_connections.
Qed.

Lemma redis_deliver_wf channel (message : Buffer) p :
  wf p → wf (redis_deliver channel message p).
Proof.
  intros H. unfold redis_deliver. destruct (_sub p); [|done].
  case_bool_decide.
  - by apply publish_wf.
  - destruct (String.prefix "g." channel); [|done].
    unfold sub_on_pmessage.
    eapply wf_frame; [| |apply (publish_wf (substr 2 channel) message p H)];
      simpl; by rewrite ?debug_log_app, ?debug_log_connections.
Qed.

(** *** The sweep *)

Lemma fmap_alter_fixed {A B} (f : A → B) (g : A → A) (i : nat) (l : list A) :
  (∀ x, f (g x) = f x) → f <$> alter g i l = f <$> l.
Proof.
  intros H. revert i. induction l as [|x l IH]; intros [|i]; simpl; [done..| |].
  - by rewrite H.
  - f_equal. apply IH.
Qed.

(** One iteration of the sweep on a registered key: the entry's connection
    object is probed when its flag is set and retired otherwise, in which
    case the entry goes too. Nothing else changes in the store or the
    registry. *)
Lemma keepAlive_one_spec u p sock :
  wf p → _connections p !! u = Some sock →
  ∃ p1 ws,
    keepAlive_one u p = Ok p1 ∧ wf p1
    ∧ _app p !! sock_ws sock = Some ws ∧ ws_id ws = u ∧ ws_closed ws = false
    ∧ _app p1 = alter (if ws_alive ws then ws_probe else ws_end)
                      (sock_ws sock) (_app p)
    ∧ _connections p1
      = (if ws_alive ws then _connections p else delete u (_connections p)).
Proof.
  intros Hwf Hu. pose proof Hwf as [H1 H2].
  destruct (H1 _ _ Hu) as (_ & ws & Hw & Hid & Hcl & _).
  unfold keepAlive_one. rewrite Hu, Hw.
  destruct (ws_alive ws) eqn:Hal.
  - rewrite Hcl. eexists _, ws. rewrite Hal. split_and!; try done.
    apply wf_reshape; [done|]. by apply same_shape_alter.
  - set (q := debug_log _ _ p).
    assert (_app q = _app p) as Ea by apply debug_log_app.
    assert (_connections q = _connections p) as Ec
      by apply debug_log_connections.
    assert (_app q !! sock_ws sock = Some ws) as Hq by (by rewrite Ea).
    eexists _, ws. rewrite Hal. split_and!; try done.
    + apply ws_close_wf. by apply (wf_frame p).
    + unfold sock_disconnect. by rewrite (ws_close_app _ _ _ Hq Hcl), Ea.
    + unfold sock_disconnect.
      by rewrite (ws_close_connections _ _ _ Hq Hcl), Ec, Hid.
Qed.

(** The whole [forEach] over a duplicate-free list of registered keys. *)
Lemma forEach_keepAlive_spec us p :
  wf p → NoDup us → (∀ u, u ∈ us → is_Some (_connections p !! u)) →
  ∃ p',
    forEach_keepAlive us p = Ok p' ∧ wf p'
    ∧ ws_id <$> _app p' = ws_id <$> _app p
    ∧ (∀ id sock ws,
         _connections p !! id = Some sock →
         _app p !! sock_ws sock = Some ws →
         if decide (id ∈ us) then
           if ws_alive ws
           then _connections p' !! id = Some sock
                ∧ _app p' !! sock_ws sock = Some (ws_probe ws)
           else _connections p' !! id = None
                ∧ _app p' !! sock_ws sock = Some (ws_end ws)
         else _connections p' !! id = Some sock
              ∧ _app p' !! sock_ws sock = Some ws)
    ∧ (∀ w, (∀ id sock, _connections p !! id = Some sock → sock_ws sock ≠ w) →
            _app p' !! w = _app p !! w)
    ∧ (∀ id, _connections p !! id = None → _connections p' !! id = None).
Proof.
  revert p. induction us as [|u us IH]; intros p Hwf Hnd Hreg.
  { exists p. by split_and!. }
  apply NoDup_cons in Hnd as [Hu Hnd].
  destruct (Hreg u) as [sock_u Hsu]; [by left|].
  destruct (keepAlive_one_spec u p sock_u Hwf Hsu)
    as (p1 & ws_u & Hone & Hwf1 & Hwu & Hidu & Hclu & Happ1 & Hconn1).
  assert (∀ id, id ≠ u → _connections p1 !! id = _connections p !! id) as Hoth.
  { intros id Hne. rewrite Hconn1. destruct (ws_alive ws_u); [done|].
    by rewrite lookup_delete_ne. }
  assert (∀ id sock, id ≠ u → _connections p !! id = Some sock →
            sock_ws sock ≠ sock_ws sock_u) as Hdiff.
  { intros id sock Hne Hs Heq. apply Hne.
    by apply (wf_handle_inj p id u sock sock_u). }
  destruct (IH p1 Hwf1 Hnd) as (p' & Hrun & Hwf' & Hids & Ha & Hb & Hc).
  { intros u' Hu'. rewrite Hoth; [apply Hreg; by right|]. by intros ->. }
  exists p'. split_and!.
  - simpl. by rewrite Hone.
  - done.
  - rewrite Hids, Happ1. apply fmap_alter_fixed.
    intros x. by destruct (ws_alive ws_u).
  - intros id sock ws Hs Hw. destruct (decide (id = u)) as [->|Hne].
    + assert (sock = sock_u) as -> by congruence.
      assert (ws = ws_u) as -> by congruence.
      rewrite decide_True by (by left).
      assert (_app p1 !! sock_ws sock_u
              = Some ((if ws_alive ws_u then ws_probe else ws_end) ws_u)) as Hw1
        by (by rewrite Happ1, list_lookup_alter_eq, Hwu).
      destruct (ws_alive ws_u) eqn:Hal.
      * assert (_connections p1 !! u = Some sock_u) as Hs1 by (by rewrite Hconn1).
        specialize (Ha _ _ _ Hs1 Hw1). by rewrite decide_False in Ha.
      * split.
        -- apply Hc. by rewrite Hconn1, lookup_delete_eq.
        -- rewrite Hb; [done|]. intros id sock.
           rewrite Hconn1. intros [Hne Hs']%lookup_delete_Some. by eapply Hdiff.
    + assert (_connections p1 !! id = Some sock) as Hs1 by (by rewrite Hoth).
      assert (_app p1 !! sock_ws sock = Some ws) as Hw1.
      { rewrite Happ1, list_lookup_alter_ne; [done|].
        intros Heq. by eapply Hdiff. }
      specialize (Ha _ _ _ Hs1 Hw1).
      destruct (decide (id ∈ us)) as [Hin|Hin].
      * by rewrite decide_True by (by right).
      * rewrite decide_False; [done|]. by intros [?|?]%elem_of_cons.
  - intros w Hun. rewrite Hb.
    + rewrite Happ1, list_lookup_alter_ne; [done|]. by apply (Hun u).
    + intros id sock Hs1. destruct (decide (id = u)) as [->|Hne].
      * apply (Hun u). rewrite Hconn1 in Hs1.
        destruct (ws_alive ws_u); [congruence|].
        by rewrite lookup_delete_eq in Hs1.
      * apply (Hun id). by rewrite <- Hoth.
  - intros id Hn. apply Hc. rewrite Hconn1.
    destruct (ws_alive ws_u); [done|]. by apply lookup_delete_None; right.
Qed.

Lemma elem_of_Object_keys (m : gmap string UWSSocket) u :
  u ∈ Object_keys m ↔ is_Some (m !! u).
Proof.
  unfold Object_keys. rewrite list_elem_of_fmap. split.
  - intros ([k v] & -> & H). apply elem_of_map_to_list in H. by exists v.
  - intros [v H]. exists (u, v). split; [done|]. by apply elem_of_map_to_list.
Qed.

(** A sweep never throws in a well-formed state; it probes every registered
    connection whose flag is set and drops every registered connection whose
    flag is clear. *)
Lemma keepAliveSockets_spec p :
  wf p →
  ∃ p',
    keepAliveSockets p = Ok p' ∧ wf p'
    ∧ ws_id <$> _app p' = ws_id <$> _app p
    ∧ (∀ id sock ws,
         _connections p !! id = Some sock →
         _app p !! sock_ws sock = Some ws →
         if ws_alive ws
         then _connections p' !! id = Some sock
              ∧ _app p' !! sock_ws sock = Some (ws_probe ws)
         else _connections p' !! id = None
              ∧ _app p' !! sock_ws sock = Some (ws_end ws))
    ∧ (∀ w, (∀ id sock, _connections p !! id = Some sock → sock_ws sock ≠ w) →
            _app p' !! w = _app p !! w)
    ∧ (∀ id, _connections p !! id = None → _connections p' !! id = None).
Proof.
  intros Hwf. unfold keepAliveSockets.
  destruct (forEach_keepAlive_spec (Object_keys (_connections p)) p Hwf)
    as (p' & Hrun & Hwf' & Hids & Ha & Hb & Hc).
  { apply NoDup_fst_map_to_list. }
  { intros u. by rewrite elem_of_Object_keys. }
  exists p'. split_and!; try done.
  intros id sock ws Hs Hw. specialize (Ha _ _ _ Hs Hw).
  rewrite decide_True in Ha; [done|]. apply elem_of_Object_keys. by exists sock.
Qed.

End Invariant.

(** ** Opening a connection *)

Section Opening.
Context {Buffer : Type}.
Variable options : option TeckosOptions.
Implicit Types (p q : UWSProvider Buffer) (ws : WebSocket Buffer).
Implicit Types (sock : UWSSocket) (hs : list ITeckosSocketHandler).

Lemma open_base_wf r p : wf p → wf (open_base options r p).
Proof.
  intros [H1 H2]. split.
  - intros id sock. unfold handle_ok, open_base. simpl.
    intros [[<- <-]|[Hne H]]%lookup_insert_Some.
    + split; [done|]. eexists. split_and!; simpl.
      * by apply list_lookup_middle.
      * done.
      * done.
      * set_solver.
    + destruct (H1 _ _ H) as (? & ws & Hw & ?). split; [done|].
      exists ws. split; [|done]. by apply lookup_app_l_Some.
  - intros w ws. unfold open_base. simpl.
    intros [Hw|[_ Hw]]%lookup_app_Some; [by apply (H2 w)|].
    destruct (w - length (_app p)) as [|n]; simpl in Hw; [|done].
    by injection Hw as <-.
Qed.

Lemma own_object_base r p :
  own_object (open_base options r p) (generateUUID r) (length (_app p)).
Proof.
  eexists. unfold open_base. simpl. split; [by apply list_lookup_middle|].
  split_and!; try done. left. split; [done|].
  split; [by apply elem_of_singleton|]. eexists. by rewrite lookup_insert_eq.
Qed.

Lemma own_object_join group p id w :
  own_object p id w → own_object (sock_join id group p) id w.
Proof.
  intros (ws & Hw & Hid & Hp & Hi & [(Hcl & Ha & sock & Hs & Hsw & Hsi)|[Hcl Hs]]);
    unfold sock_join; rewrite Hs; [|exists ws; split_and!; try done; by right].
  exists (ws_subscribe group ws). simpl. rewrite Hsw.
  split; [by rewrite list_lookup_alter_eq, Hw|]. split_and!; try done.
  left. split; [done|]. split; [apply elem_of_union; by right|].
  eexists. by rewrite lookup_insert_eq.
Qed.

Lemma own_object_close p id w : own_object p id w → own_object (ws_close w p) id w.
Proof.
  intros (ws & Hw & Hid & Hp & Hi & [(Hcl & Ha & sock & Hs & Hsw & Hsi)|[Hcl Hs]]).
  - exists (ws_end ws).
    rewrite (ws_close_app w p ws), (ws_close_connections w p ws) by done.
    split; [by rewrite list_lookup_alter_eq, Hw|]. split_and!; try done.
    right. split; [done|]. by rewrite Hid, lookup_delete_eq.
  - rewrite ws_close_noop; [|rewrite Hw; by intros ? [= <-]].
    exists ws. split_and!; try done. by right.
Qed.

Lemma own_object_steps id w p q :
  handler_steps id w p q → own_object p id w → own_object q id w.
Proof.
  induction 1 as [p|n p q _ IH|g p q _ IH|p q _ IH|e p q _ IH]; intros Ho;
    [done|apply IH..].
  - exact Ho.
  - by apply own_object_join.
  - by apply own_object_close.
  - exact Ho.
Qed.

Lemma steps_trans id w p q r :
  handler_steps id w p q → handler_steps id w q r → handler_steps id w p r.
Proof.
  induction 1 as [p|n p q _ IH|g p q _ IH|p q _ IH|e p q _ IH]; intros Hr;
    [done|..].
  - apply (steps_notify id w n). by apply IH.
  - apply (steps_join id w g). by apply IH.
  - apply steps_close. by apply IH.
  - apply (steps_error id w e). by apply IH.
Qed.

Lemma steps_wf id w p q : handler_steps id w p q → wf p → wf q.
Proof.
  induction 1 as [p|n p q _ IH|g p q _ IH|p q _ IH|e p q _ IH]; intros Hwf;
    [done|apply IH..].
  - by apply (wf_frame p).
  - by apply sock_join_wf.
  - by apply ws_close_wf.
  - by apply (wf_frame p).
Qed.

Lemma steps_ids id w p q : handler_steps id w p q → ids q = ids p.
Proof.
  induction 1 as [p|n p q _ IH|g p q _ IH|p q _ IH|e p q _ IH];
    [done|rewrite IH..]; try done; unfold ids.
  - unfold sock_join. destruct (_connections p !! id); [|done]. simpl.
    by apply fmap_alter_fixed.
  - destruct (_app p !! w) as [ws|] eqn:Hw;
      [|by rewrite ws_close_noop by (by rewrite Hw)].
    destruct (ws_closed ws) eqn:Hcl;
      [by rewrite ws_close_noop by (rewrite Hw; by intros ? [= <-])|].
    rewrite (ws_close_app w p ws) by done. by apply fmap_alter_fixed.
Qed.

(** The handlers of [open] touch the new connection only. *)
Lemma steps_others id w p q :
  handler_steps id w p q → own_object p id w →
  (∀ w0, w0 ≠ w → _app q !! w0 = _app p !! w0)
  ∧ (∀ id0, id0 ≠ id → _connections q !! id0 = _connections p !! id0).
Proof.
  induction 1 as [p|n p q _ IH|g p q _ IH|p q _ IH|e p q _ IH]; intros Ho;
    [done|..].
  - by apply IH.
  - destruct (IH (own_object_join g p id w Ho)) as [Ha Hc].
    destruct Ho
      as (ws & Hw & Hid & _ & _ & [(Hcl & _ & sock & Hs & Hsw & Hsi)|[Hcl Hs]]).
    + split.
      * intros w0 Hne. rewrite Ha by done. unfold sock_join. rewrite Hs. simpl.
        rewrite list_lookup_alter_ne; [done|]. congruence.
      * intros id0 Hne. rewrite Hc by done. unfold sock_join. rewrite Hs. simpl.
        by rewrite lookup_insert_ne.
    + split.
      * intros w0 Hne. rewrite Ha by done. unfold sock_join. by rewrite Hs.
      * intros id0 Hne. rewrite Hc by done. unfold sock_join. by rewrite Hs.
  - destruct (IH (own_object_close p id w Ho)) as [Ha Hc].
    destruct Ho as (ws & Hw & Hid & _ & _ & Hst).
    destruct (ws_closed ws) eqn:Hcl.
    + rewrite ws_close_noop in Ha, Hc; [done|..];
        rewrite Hw; by intros ? [= <-].
    + split.
      * intros w0 Hne. rewrite Ha by done.
        rewrite (ws_close_app w p ws) by done.
        by rewrite list_lookup_alter_ne.
      * intros id0 Hne. rewrite Hc by done.
        rewrite (ws_close_connections w p ws) by done.
        rewrite lookup_delete_ne; [done|]. congruence.
  - by apply IH.
Qed.

Lemma do_calls_steps id w handle calls p :
  (∀ sock, handle = Some sock → sock_id sock = id ∧ sock_ws sock = w) →
  handler_steps id w p (do_calls handle calls p).
Proof.
  intros Hh. destruct handle as [sock|]; simpl; [|constructor].
  destruct (Hh sock eq_refl) as [<- <-]. clear Hh. revert p.
  induction calls as [|[g|] calls IH]; intros p; simpl; [constructor|..].
  - apply (steps_join _ _ g). apply IH.
  - apply steps_close. apply IH.
Qed.

Lemma own_object_handle p id w sock :
  own_object p id w → _connections p !! id = Some sock →
  sock_id sock = id ∧ sock_ws sock = w.
Proof.
  intros (ws & _ & _ & _ & _ & [(_ & _ & s & Hs & ? & ?)|[_ Hs]]) E;
    [|congruence].
  assert (s = sock) as -> by congruence. done.
Qed.

Lemma forEach_handler_steps id w hs p :
  own_object p id w → handler_steps id w p (forEach_handler hs id p).1.
Proof.
  revert p. induction hs as [|h hs IH]; intros p Ho; simpl; [constructor|].
  set (handle := _connections p !! id).
  set (p1 := notify (HandlerCalled (h_name h) (sock_id <$> handle)) p).
  assert (handler_steps id w p1 (do_calls handle (h_body h handle).1 p1)) as Hd.
  { apply do_calls_steps. intros sock E. by apply (own_object_handle p). }
  assert (handler_steps id w p (do_calls handle (h_body h handle).1 p1)) as Hs
    by (by apply (steps_notify id w (HandlerCalled (h_name h) (sock_id <$> handle)))).
  destruct (h_body h handle).2; simpl; [done|].
  eapply steps_trans; [exact Hs|]. apply IH.
  by apply (own_object_steps id w p).
Qed.

(** What [open] does after the new connection is in place is a sequence of
    steps of its handlers. *)
Lemma on_open_steps r p :
  handler_steps (generateUUID r) (length (_app p))
                (open_base options r p) (on_open options r p).
Proof.
  unfold on_open.
  pose proof (forEach_handler_steps (generateUUID r) (length (_app p))
                (_handlers (open_base options r p)) (open_base options r p)
                (own_object_base r p)) as Hs.
  destruct (forEach_handler _ _ _) as [q [e|]]; simpl in *; [|done].
  eapply steps_trans; [exact Hs|]. apply (steps_error _ _ e). constructor.
Qed.

Lemma on_open_wf r p : wf p → wf (on_open options r p).
Proof.
  intros Hwf. eapply steps_wf; [apply on_open_steps|]. by apply open_base_wf.
Qed.

Lemma on_open_own r p :
  own_object (on_open options r p) (generateUUID r) (length (_app p)).
Proof.
  eapply own_object_steps; [apply on_open_steps|]. apply own_object_base.
Qed.

Lemma on_open_ids r p : ids (on_open options r p) = ids p ++ [generateUUID r].
Proof.
  rewrite (steps_ids _ _ _ _ (on_open_steps r p)). unfold ids, open_base.
  simpl. by rewrite fmap_app.
Qed.

(** The connection objects that were there stay as they are. *)
Lemma on_open_others r p w ws :
  _app p !! w = Some ws → _app (on_open options r p) !! w = Some ws.
Proof.
  intros Hw.
  destruct (steps_others _ _ _ _ (on_open_steps r p) (own_object_base r p))
    as [Ha _].
  pose proof (lookup_lt_Some _ _ _ Hw).
  rewrite Ha by lia. unfold open_base. simpl. by apply lookup_app_l_Some.
Qed.

(** So do the registry entries under other keys. *)
Lemma on_open_connections_ne r p id :
  id ≠ generateUUID r →
  _connections (on_open options r p) !! id = _connections p !! id.
Proof.
  intros Hne.
  destruct (steps_others _ _ _ _ (on_open_steps r p) (own_object_base r p))
    as [_ Hc].
  rewrite Hc by done. unfold open_base. simpl. by rewrite lookup_insert_ne.
Qed.

(** Neither the options nor the backbone nor the handler list change while
    the handlers of [open] run. *)
Lemma ws_close_kept w p :
  _options (ws_close w p) = _options p ∧ _sub (ws_close w p) = _sub p
  ∧ _pub (ws_close w p) = _pub p ∧ _handlers (ws_close w p) = _handlers p.
Proof.
  unfold ws_close, on_close. destruct (_app p !! w) as [ws|]; [|done].
  destruct (ws_closed ws); [done|]. simpl.
  destruct (alter ws_end w (_app p) !! w) as [ws'|]; [|done]. simpl.
  destruct (_connections p !! ws_id ws'); [|done]. simpl.
  by rewrite debug_log_options, debug_log_sub, debug_log_pub,
    debug_log_handlers.
Qed.

Lemma steps_kept id w p q :
  handler_steps id w p q →
  _options q = _options p ∧ _sub q = _sub p
  ∧ _pub q = _pub p ∧ _handlers q = _handlers p.
Proof.
  induction 1 as [p|n p q _ IH|g p q _ IH|p q _ IH|e p q _ IH]; [done|..];
    destruct IH as (-> & -> & -> & ->); [done| |apply ws_close_kept|done].
  unfold sock_join. by destruct (_connections p !! id).
Qed.

Lemma on_open_kept r p :
  _options (on_open options r p) = _options p
  ∧ _sub (on_open options r p) = _sub p
  ∧ _pub (on_open options r p) = _pub p
  ∧ _handlers (on_open options r p) = _handlers p.
Proof. exact (steps_kept _ _ _ _ (on_open_steps r p)). Qed.

End Opening.

(** ** The calls of the connection handlers *)

Section Handlers.
Context {Buffer : Type}.
Variable options : option TeckosOptions.
Implicit Types (p q : UWSProvider Buffer) (ws : WebSocket Buffer).
Implicit Types (sock : UWSSocket) (hs : list ITeckosSocketHandler).
Implicit Types (invoked : list Invocation).

Lemma handler_calls_app (ns1 ns2 : list (Notice Buffer)) :
  handler_calls (ns1 ++ ns2) = handler_calls ns1 ++ handler_calls ns2.
Proof. unfold handler_calls. apply bind_app. Qed.

Lemma errors_app l1 l2 : errors (l1 ++ l2) = errors l1 ++ errors l2.
Proof. apply List.filter_app. Qed.

(** Closing a connection calls no connection handler and writes no error. *)
Lemma ws_close_quiet w p :
  handler_calls (notices (ws_close w p)) = handler_calls (notices p)
  ∧ errors (console (ws_close w p)) = errors (console p).
Proof.
  unfold ws_close, on_close. destruct (_app p !! w) as [ws|]; [|done].
  destruct (ws_closed ws); [done|]. simpl.
  destruct (alter ws_end w (_app p) !! w) as [ws'|]; [|done]. simpl.
  destruct (_connections p !! ws_id ws') as [sock|]; [|done].
  unfold sock_onDisconnect, debug_log.
  destruct (truthy _); simpl;
    rewrite ?handler_calls_app, ?errors_app; simpl; by rewrite ?app_nil_r.
Qed.

Lemma sock_join_quiet id group p :
  handler_calls (notices (sock_join id group p)) = handler_calls (notices p)
  ∧ errors (console (sock_join id group p)) = errors (console p).
Proof. unfold sock_join. by destruct (_connections p !! id). Qed.

Lemma do_calls_quiet handle calls p :
  handler_calls (notices (do_calls handle calls p)) = handler_calls (notices p)
  ∧ errors (console (do_calls handle calls p)) = errors (console p).
Proof.
  destruct handle as [sock|]; simpl; [|done]. revert p.
  induction calls as [|[g|] calls IH]; intros p; simpl; [done|..].
  - destruct (IH (sock_join (sock_id sock) g p)) as [-> ->].
    apply sock_join_quiet.
  - destruct (IH (sock_disconnect sock p)) as [-> ->]. apply ws_close_quiet.
Qed.

(** After its connection object was closed, the identity is out of the
    registry. *)
Lemma own_object_closed p id w :
  own_object p id w → _connections (ws_close w p) !! id = None.
Proof.
  intros (ws & Hw & Hid & _ & _ & [(Hcl & _ & sock & Hs & _)|[Hcl Hs]]).
  - rewrite (ws_close_connections w p ws) by done.
    by rewrite Hid, lookup_delete_eq.
  - rewrite ws_close_noop; [done|]. rewrite Hw. by intros ? [= <-].
Qed.

Lemma sock_join_registered id group p :
  _connections (sock_join id group p) !! id = None
  ↔ _connections p !! id = None.
Proof.
  unfold sock_join. destruct (_connections p !! id) as [sock|] eqn:E; simpl.
  - by rewrite lookup_insert_eq.
  - by rewrite E.
Qed.

(** The calls of one handler take the identity out of the registry when one
    of them is a [disconnect], and only then. *)
Lemma do_calls_registered id w sock calls p :
  own_object p id w → sock_id sock = id → sock_ws sock = w →
  _connections (do_calls (Some sock) calls p) !! id = None
  ↔ _connections p !! id = None ∨ existsb is_disconnect calls = true.
Proof.
  intros Ho <- <-. simpl. revert p Ho.
  induction calls as [|[g|] calls IH]; intros p Ho; simpl.
  - split; [by left|]. by intros [?|?].
  - rewrite IH by (by apply own_object_join). by rewrite sock_join_registered.
  - rewrite IH by (by apply own_object_close). unfold sock_disconnect.
    rewrite (own_object_closed p (sock_id sock) (sock_ws sock) Ho).
    split; [by right|by left].
Qed.

(** The calls of the handlers of [open], from a state where the connection
    [w] of identity [id] is in place: which handlers were called and with
    what, how the loop ended, and what it left in the registry. *)
Lemma forEach_handler_trace hs id w p :
  own_object p id w →
  ∃ invoked rest,
    hs = invoked.*1 ++ rest
    ∧ handler_calls (notices (forEach_handler hs id p).1)
      = handler_calls (notices p) ++ (call_of <$> invoked)
    ∧ errors (console (forEach_handler hs id p).1) = errors (console p)
    ∧ match _connections p !! id with
      | Some _ => handles_given id w invoked
      | None => Forall (λ y, y.2 = None) invoked
      end
    ∧ match invoked with
      | x :: _ => x.2 = _connections p !! id
      | [] => True
      end
    ∧ match (forEach_handler hs id p).2 with
      | None => rest = [] ∧ Forall (λ x, outcome x = None) invoked
      | Some e =>
          ∃ init x, invoked = init ++ [x]
                    ∧ Forall (λ x, outcome x = None) init ∧ outcome x = Some e
      end
    ∧ (_connections (forEach_handler hs id p).1 !! id = None
       ↔ _connections p !! id = None ∨ existsb disconnects invoked = true).
Proof.
  revert p. induction hs as [|h hs IH]; intros p Ho.
  { exists [], []. simpl. rewrite app_nil_r. split_and!; try done.
    - by destruct (_connections p !! id).
    - split; [by left|]. by intros [?|?]. }
  simpl. set (handle := _connections p !! id).
  set (x := (h, handle) : Invocation).
  set (p1 := notify (HandlerCalled (h_name h) (sock_id <$> handle)) p).
  set (p2 := do_calls handle (h_body h handle).1 p1).
  assert (own_object p1 id w) as Ho1 by exact Ho.
  assert (handler_steps id w p1 p2) as Hst.
  { apply do_calls_steps. intros sock E. by apply (own_object_handle p). }
  pose proof (own_object_steps id w p1 p2 Hst Ho1) as Ho2.
  destruct (do_calls_quiet handle (h_body h handle).1 p1) as [Hn2 He2].
  fold p2 in Hn2, He2.
  assert (handler_calls (notices p2)
          = handler_calls (notices p) ++ [call_of x]) as Hn.
  { rewrite Hn2. unfold p1. simpl. by rewrite handler_calls_app. }
  assert (errors (console p2) = errors (console p)) as He by (by rewrite He2).
  assert (_connections p2 !! id = None
          ↔ handle = None ∨ disconnects x = true) as Hreg.
  { unfold disconnects, x. simpl. destruct handle as [sock|] eqn:E.
    - destruct (own_object_handle p id w sock Ho E) as [Hi Hw].
      unfold p2. rewrite (do_calls_registered id w sock _ p1 Ho1 Hi Hw).
      unfold p1. simpl. fold handle. by rewrite E.
    - unfold p2. simpl. fold handle. rewrite E. split; [by left|done]. }
  assert (match handle with
          | Some _ => ∃ sock, x.2 = Some sock ∧ sock_id sock = id
                              ∧ sock_ws sock = w
          | None => x.2 = None
          end) as Harg.
  { destruct handle as [sock|] eqn:E; [|done].
    exists sock. split; [done|]. by apply (own_object_handle p). }
  destruct (h_body h handle).2 as [e|] eqn:Hout.
  - exists [x], hs. simpl. split_and!; try done.
    + destruct handle; simpl; [|by repeat constructor].
      split; [done|]. by destruct (disconnects x).
    + exists [], x. by split_and!.
    + rewrite Hreg. rewrite orb_false_r. done.
  - destruct (IH p2 Ho2)
      as (invoked & rest & Hhs & Hc & Hr & Hg & Hhd & Hend & Hfin).
    exists (x :: invoked), rest. split_and!.
    + rewrite fmap_cons, <- app_comm_cons. by f_equal.
    + rewrite Hc, Hn. simpl. by rewrite <- app_assoc.
    + by rewrite Hr.
    + destruct handle as [sock|] eqn:E; simpl.
      * split; [done|]. destruct (disconnects x) eqn:Hd.
        -- destruct (_connections p2 !! id) eqn:E2; [|done].
           assert (@None UWSSocket = None) as H0 by done.
           destruct Hreg as [_ Hreg]. by specialize (Hreg (or_intror eq_refl)).
        -- destruct (_connections p2 !! id) eqn:E2; [done|].
           destruct Hreg as [Hreg _]. by destruct (Hreg eq_refl).
      * constructor; [done|].
        destruct (_connections p2 !! id) eqn:E2; [|done].
        destruct Hreg as [_ Hreg]. by specialize (Hreg (or_introl eq_refl)).
    + done.
    + destruct (forEach_handler hs id p2).2 as [e|].
      * destruct Hend as (init & y & -> & Hinit & Hy).
        exists (x :: init), y. split_and!; [done| |done].
        by constructor.
      * destruct Hend as [-> Hall]. split; [done|]. by constructor.
    + rewrite Hfin, Hreg. simpl. rewrite orb_true_iff. tauto.
Qed.

End Handlers.

(** C2, as the code has it: on a new connection the handlers are called in
    registration order, each once, up to and including the first one that
    throws; that exception is caught and written to the console, and the
    handlers registered after it are not called for this connection. When no
    handler throws, every handler is called once, in order. Each handler is
    given what the registry holds under the identity at that moment: the
    first one the new handle, the later ones the handle of the connection
    or, once a handler has disconnected it, [undefined]. Afterwards the
    connection is open and registered, unless a handler disconnected it:
    then it is closed and out of the registry. The handler list is as it
    was. *)
Theorem C2_open_calls_handlers_until_throw {Buffer}
    (options : option TeckosOptions) (randomBytes : list Byte.byte)
    (p : UWSProvider Buffer) :
  let id := generateUUID randomBytes in
  let w := length (_app p) in
  let p' := on_open options randomBytes p in
  ∃ (invoked : list Invocation) rest thrown,
    _handlers p = invoked.*1 ++ rest
    ∧ handler_calls (notices p')
      = handler_calls (notices p) ++ (call_of <$> invoked)
    ∧ match thrown with
      | Some e =>
          (∃ init x, invoked = init ++ [x]
                     ∧ Forall (λ x, outcome x = None) init
                     ∧ outcome x = Some e)
          ∧ errors (console p') = errors (console p) ++ [ConsoleError e]
      | None =>
          rest = [] ∧ Forall (λ x, outcome x = None) invoked
          ∧ errors (console p') = errors (console p)
      end
    ∧ match invoked with
      | x :: _ => x.2 = Some (UWSSocket_new id w (options ≫= debug))
      | [] => True
      end
    ∧ handles_given id w invoked
    ∧ own_object p' id w
    ∧ (_connections p' !! id = None ↔ existsb disconnects invoked = true)
    ∧ _handlers p' = _handlers p.
Proof.
  intros id w p'.
  pose proof (on_open_own options randomBytes p) as Hown.
  destruct (on_open_kept options randomBytes p) as (_ & _ & _ & Hkept).
  fold id w p' in Hown. fold p' in Hkept.
  destruct (forEach_handler_trace (_handlers p) id w
              (open_base options randomBytes p)
              (own_object_base options randomBytes p))
    as (invoked & rest & Hhs & Hc & Hr & Hg & Hhd & Hend & Hfin).
  assert (_connections (open_base options randomBytes p) !! id
          = Some (UWSSocket_new id w (options ≫= debug))) as Hnew
    by (unfold open_base; simpl; by rewrite lookup_insert_eq).
  rewrite Hnew in Hg, Hhd, Hfin.
  assert (p' = match forEach_handler (_handlers p) id
                       (open_base options randomBytes p) with
               | (q, None) => q
               | (q, Some e) => console_error e q
               end) as Hp' by done.
  clearbody p'.
  exists invoked, rest,
    (forEach_handler (_handlers p) id (open_base options randomBytes p)).2.
  split; [done|].
  destruct (forEach_handler (_handlers p) id (open_base options randomBytes p))
    as [q [e|]]; simpl in *; subst p'.
  - split; [done|]. split.
    { split; [done|]. simpl. by rewrite errors_app, Hr. }
    split; [done|]. split; [done|]. split; [done|]. split; [|done].
    rewrite Hfin. split; [by intros [?|?]|by right].
  - split; [done|]. split; [by destruct Hend|].
    split; [done|]. split; [done|]. split; [done|]. split; [|done].
    rewrite Hfin. split; [by intros [?|?]|by right].
Qed.

(** C2 as stated fails: with a throwing handler registered before a second
    one, the second one is registered but never called for the connection;
    the call of the first one and the error it threw are all there is. *)
Lemma C2_second_handler_skipped :
  let p0 := onConnection quiet_handler
              (onConnection failing_handler
                 (UWSProvider_new (Buffer:=TeckosPacket) None)) in
  let p' := on_open None [Byte.x01] p0 in
  _handlers p0 = [failing_handler; quiet_handler]
  ∧ notices p' = [HandlerCalled "first" (Some "01")]
  ∧ handler_calls (notices p') = [("first", Some "01")]
  ∧ ¬ (∃ handle, HandlerCalled (h_name quiet_handler) handle ∈ notices p')
  ∧ console p' = [ConsoleError "boom"]
  ∧ sock_id <$> _connections p' !! "01" = Some "01".
Proof.
  split_and!; try reflexivity.
  intros [handle H]. apply list_elem_of_In in H. vm_compute in H.
  destruct H as [H|[]]. discriminate H.
Qed.

(** A handler that disconnects the handle it is given: the handler after it
    is called with [undefined], and the connection ends closed and out of
    the registry. *)
Example handler_after_disconnect_gets_undefined :
  let p0 := onConnection quiet_handler
              (onConnection closing_handler
                 (UWSProvider_new (Buffer:=TeckosPacket) None)) in
  let p' := on_open None [Byte.x01] p0 in
  notices p'
  = [HandlerCalled "bouncer" (Some "01"); Disconnected "01";
     HandlerCalled "second" None]
  ∧ _connections p' !! "01" = None
  ∧ ws_closed <$> _app p' = [true]
  ∧ console p' = [].
Proof. by vm_compute. Qed.

(** ** Steps and runs *)

Section Runs.
Context {Buffer : Type}.
Variable encodePacket : TeckosPacket → Buffer.
Variable options : option TeckosOptions.
Implicit Types (p : UWSProvider Buffer) (ws : WebSocket Buffer).
Implicit Types (sock : UWSSocket) (ev : Event Buffer).
Implicit Types (evs : list (Event Buffer)).

#[local] Abbreviation step := (step encodePacket options).
#[local] Abbreviation run := (run encodePacket options).

Lemma toAll_fields event args p :
  _connections (toAll encodePacket event args p) = _connections p
  ∧ ∃ o, _app (toAll encodePacket event args p) = maybe_publish o (_app p).
Proof.
  unfold toAll. destruct (_pub p); simpl.
  - split; [done|]. by exists None.
  - rewrite debug_log_connections, debug_log_app. split; [done|].
    by eexists (Some (_, _)).
Qed.

Lemma to_fields group event args p :
  _connections (to encodePacket group event args p) = _connections p
  ∧ ∃ o, _app (to encodePacket group event args p) = maybe_publish o (_app p).
Proof.
  unfold to. destruct (_pub p); simpl.
  - split; [done|]. by exists None.
  - rewrite debug_log_connections, debug_log_app. split; [done|].
    by eexists (Some (_, _)).
Qed.

Lemma redis_deliver_fields channel (message : Buffer) p :
  _connections (redis_deliver channel message p) = _connections p
  ∧ ∃ o, _app (redis_deliver channel message p) = maybe_publish o (_app p).
Proof.
  unfold redis_deliver. destruct (_sub p); [|split; [done|by exists None]].
  case_bool_decide.
  - split; [done|]. by eexists (Some (_, _)).
  - destruct (String.prefix "g." channel); [|split; [done|by exists None]].
    unfold sub_on_pmessage. simpl.
    rewrite debug_log_connections, debug_log_app. split; [done|].
    by eexists (Some (_, _)).
Qed.

(** A publication leaves a connection object as it is, up to its inbox. *)
Lemma maybe_publish_lookup o (app : list (WebSocket Buffer)) w ws :
  app !! w = Some ws →
  ∃ ws', maybe_publish o app !! w = Some ws'
         ∧ ws_id ws' = ws_id ws ∧ ws_alive ws' = ws_alive ws
         ∧ ws_closed ws' = ws_closed ws ∧ ws_topics ws' = ws_topics ws
         ∧ ws_pings ws' = ws_pings ws
         ∧ (ws_topics ws = ∅ → ws' = ws).
Proof.
  intros Hw. destruct o as [[topic message]|]; simpl.
  - unfold app_publish. rewrite list_lookup_fmap, Hw. simpl.
    eexists. split; [done|]. unfold ws_deliver.
    case_bool_decide as Hin; split_and!; try done.
    intros He. rewrite He in Hin. by apply not_elem_of_empty in Hin.
  - exists ws. by split_and!.
Qed.

Lemma maybe_publish_ids o (app : list (WebSocket Buffer)) :
  ws_id <$> maybe_publish o app = ws_id <$> app.
Proof.
  destruct o as [[topic message]|]; [|done]. simpl. unfold app_publish.
  rewrite <- list_fmap_compose. apply list_fmap_ext. intros _ ws _. simpl.
  unfold ws_deliver. by case_bool_decide.
Qed.

Lemma sock_join_app id group p :
  _app (sock_join id group p)
  = match _connections p !! id with
    | Some sock => alter (ws_subscribe group) (sock_ws sock) (_app p)
    | None => _app p
    end.
Proof. unfold sock_join. by destruct (_connections p !! id). Qed.

(** Every event is handled without an exception in a well-formed state, and
    leaves a well-formed state, where the only new connection object is the
    one an [Open] brings. *)
Lemma step_total p ev :
  wf p →
  ∃ p', step p ev = Ok p' ∧ wf p'
        ∧ ids p' = ids p ++ opened [ev].
Proof.
  intros Hwf. unfold ids. destruct ev; simpl.
  - eexists. split; [done|]. split; [by apply on_open_wf|].
    exact (on_open_ids options randomBytes p).
  - eexists. split; [done|]. split; [by apply on_pong_wf|].
    rewrite app_nil_r. simpl. by apply fmap_alter_fixed.
  - eexists. split; [done|]. rewrite app_nil_r. split.
    + eapply wf_frame; [..|exact Hwf];
        [apply on_message_app|apply on_message_connections].
    + by rewrite on_message_app.
  - eexists. split; [done|]. rewrite app_nil_r. split.
    + eapply wf_frame; [..|exact Hwf];
        [apply on_drain_app|apply on_drain_connections].
    + by rewrite on_drain_app.
  - eexists. split; [done|]. split; [by apply ws_close_wf|].
    rewrite app_nil_r.
    destruct (_app p !! w) as [ws|] eqn:Hw;
      [|by rewrite ws_close_noop by (by rewrite Hw)].
    destruct (ws_closed ws) eqn:Hcl;
      [by rewrite ws_close_noop by (rewrite Hw; by intros ? [= <-])|].
    rewrite (ws_close_app _ _ _ Hw Hcl). by apply fmap_alter_fixed.
  - destruct (keepAliveSockets_spec p Hwf) as (p' & Hrun & Hwf' & Hids & _).
    exists p'. by rewrite app_nil_r.
  - eexists. split; [done|]. rewrite app_nil_r. split; [|done].
    by eapply wf_frame.
  - eexists. split; [done|]. rewrite app_nil_r.
    split; [by apply toAll_wf|].
    destruct (toAll_fields event args p) as (_ & o & ->).
    apply maybe_publish_ids.
  - eexists. split; [done|]. rewrite app_nil_r.
    split; [by apply to_wf|].
    destruct (to_fields group event args p) as (_ & o & ->).
    apply maybe_publish_ids.
  - eexists. split; [done|]. rewrite app_nil_r.
    split; [by apply sock_join_wf|].
    rewrite sock_join_app. destruct (_connections p !! id); [|done].
    by apply fmap_alter_fixed.
  - eexists. split; [done|]. rewrite app_nil_r.
    split; [by apply redis_deliver_wf|].
    destruct (redis_deliver_fields channel message p) as (_ & o & ->).
    apply maybe_publish_ids.
Qed.

Lemma opened_cons ev evs : opened (ev :: evs) = opened [ev] ++ opened evs.
Proof. unfold opened. by destruct ev. Qed.

Lemma opened_app evs1 evs2 : opened (evs1 ++ evs2) = opened evs1 ++ opened evs2.
Proof.
  induction evs1 as [|ev evs1 IH]; [done|].
  rewrite <- app_comm_cons, (opened_cons ev evs1), (opened_cons ev (_ ++ _)), IH.
  by rewrite app_assoc.
Qed.

Lemma run_app p evs1 evs2 :
  run p (evs1 ++ evs2) = (p' ← run p evs1; run p' evs2).
Proof.
  revert p. induction evs1 as [|ev evs1 IH]; intros p; simpl; [done|].
  destruct (step p ev) as [p1|e]; simpl; [apply IH|done].
Qed.

(** A run from a well-formed state never throws. *)
Lemma run_total p evs :
  wf p → ∃ p', run p evs = Ok p' ∧ wf p' ∧ ids p' = ids p ++ opened evs.
Proof.
  revert p. induction evs as [|ev evs IH]; intros p Hwf.
  { exists p. split_and!; try done. unfold opened. simpl. by rewrite app_nil_r. }
  destruct (step_total p ev Hwf) as (p1 & Hs & Hwf1 & Hid1).
  destruct (IH p1 Hwf1) as (p' & Hr & Hwf' & Hid').
  exists p'. split_and!; try done.
  - simpl. by rewrite Hs.
  - by rewrite Hid', Hid1, (opened_cons ev evs), app_assoc.
Qed.

Lemma ids_new : ids (UWSProvider_new (Buffer:=Buffer) options) = [].
Proof.
  unfold ids, UWSProvider_new.
  destruct (redisUrl (merge_options options)) as [url|]; [|done].
  destruct (truthy url); [|done]. simpl. by rewrite debug_log_app.
Qed.

(** Runs of a freshly constructed provider. *)
Lemma run_new_total evs :
  ∃ p, run (UWSProvider_new options) evs = Ok p ∧ wf p ∧ ids p = opened evs.
Proof.
  destruct (run_total (UWSProvider_new options) evs (wf_new options))
    as (p & Hr & Hwf & Hid).
  exists p. split_and!; try done. by rewrite Hid, ids_new.
Qed.

Lemma NoDup_opened evs : NoDup (draws evs) → NoDup (opened evs).
Proof.
  intros H. unfold opened. apply NoDup_fmap_2; [|done].
  intros r1 r2. apply generateUUID_inj.
Qed.

(** With pairwise distinct identities, the registry entry under the identity
    of a connection object, if any, is the handle of that very object. *)
Lemma wf_own_handle p w ws sock :
  wf p → NoDup (ids p) → _app p !! w = Some ws →
  _connections p !! ws_id ws = Some sock → sock_ws sock = w.
Proof.
  intros [H1 _] Hnd Hw Hs.
  destruct (H1 _ _ Hs) as (_ & ws1 & Hw1 & Hid1 & _).
  eapply NoDup_lookup; [exact Hnd|..]; unfold ids;
    rewrite list_lookup_fmap; [by rewrite Hw1; simpl; rewrite Hid1|by rewrite Hw].
Qed.

(** *** What one event does to one connection object *)

(** The connection object [w] across one event: it keeps its identity; once
    closed it stays closed and receives nothing; while open it is closed only
    by its own [Close] or by a sweep that finds its flag clear; its flag is
    set only by its own pong and cleared only by a sweep. *)
Lemma step_cell p ev w ws :
  wf p → _app p !! w = Some ws →
  ∃ p' ws',
    step p ev = Ok p' ∧ _app p' !! w = Some ws' ∧ ws_id ws' = ws_id ws
    ∧ (ws_closed ws = true → ws_closed ws' = true ∧ ws_inbox ws' = ws_inbox ws)
    ∧ (ws_closed ws = false → ev ≠ Close w →
       (ev = Timeout → ws_alive ws = true) → ws_closed ws' = false)
    ∧ (ev ≠ Pong w → ws_alive ws = false → ws_alive ws' = false)
    ∧ (ev ≠ Timeout → ws_alive ws = true → ws_alive ws' = true)
    ∧ (ev = Pong w → ws_alive ws' = true).
Proof.
  intros Hwf Hw.
  assert (∀ p', step p ev = Ok p' → _app p' !! w = Some ws →
            (∀ v, ev = Pong v → v ≠ w) →
            ∃ p' ws',
              step p ev = Ok p' ∧ _app p' !! w = Some ws' ∧ ws_id ws' = ws_id ws
              ∧ (ws_closed ws = true →
                 ws_closed ws' = true ∧ ws_inbox ws' = ws_inbox ws)
              ∧ (ws_closed ws = false → ev ≠ Close w →
                 (ev = Timeout → ws_alive ws = true) → ws_closed ws' = false)
              ∧ (ev ≠ Pong w → ws_alive ws = false → ws_alive ws' = false)
              ∧ (ev ≠ Timeout → ws_alive ws = true → ws_alive ws' = true)
              ∧ (ev = Pong w → ws_alive ws' = true)) as Hsame.
  { intros p' Hs Hw' Hp. exists p', ws. split_and!; try done.
    intros ->. by destruct (Hp w). }
  pose proof Hwf as [H1 H2].
  destruct ev as [r|v|v b|v|v| |h|e a|g e a|id g|c m].
  - apply (Hsame (on_open options r p)); [done| |done].
    by apply on_open_others.
  - destruct (decide (v = w)) as [->|Hne].
    + eexists _, (ws_set_alive true ws). split; [done|]. split.
      { simpl. by rewrite list_lookup_alter_eq, Hw. }
      by split_and!.
    + apply (Hsame (on_pong v p)); [done| |congruence].
      simpl. by rewrite list_lookup_alter_ne.
  - apply (Hsame (on_message v b p)); [done| |done].
    by rewrite on_message_app.
  - apply (Hsame (on_drain options v p)); [done| |done].
    by rewrite on_drain_app.
  - destruct (decide (v = w)) as [->|Hne].
    + destruct (ws_closed ws) eqn:Hcl.
      * apply (Hsame (ws_close w p)); [done| |done].
        rewrite ws_close_noop; [done|]. rewrite Hw. by intros ? [= <-].
      * eexists _, (ws_end ws). split; [done|]. split.
        { simpl. by rewrite (ws_close_app w p ws), list_lookup_alter_eq, Hw. }
        by split_and!.
    + apply (Hsame (ws_close v p)); [done| |done].
      destruct (_app p !! v) as [wsv|] eqn:Hv;
        [|by rewrite ws_close_noop by (by rewrite Hv)].
      destruct (ws_closed wsv) eqn:Hclv;
        [by rewrite ws_close_noop by (rewrite Hv; by intros ? [= <-])|].
      by rewrite (ws_close_app v p wsv), list_lookup_alter_ne.
  - destruct (keepAliveSockets_spec p Hwf) as (p' & Hrun & _ & _ & Ha & Hb & _).
    destruct (_connections p !! ws_id ws) as [sock|] eqn:Hs.
    + destruct (decide (sock_ws sock = w)) as [Heq|Hne].
      * subst w. specialize (Ha _ _ _ Hs Hw).
        destruct (H1 _ _ Hs) as (_ & ws1 & Hw1 & _ & Hcl & _).
        assert (ws1 = ws) as -> by congruence.
        destruct (ws_alive ws) eqn:Hal; destruct Ha as [_ Ha].
        -- exists p', (ws_probe ws). split_and!; try done; try congruence.
        -- exists p', (ws_end ws). split_and!; try done; try congruence.
           intros _ _ Ht. by specialize (Ht eq_refl).
      * apply (Hsame p'); [done| |done]. rewrite Hb; [done|].
        intros id sock' Hs' Heq.
        destruct (H1 _ _ Hs') as (_ & ws1 & Hw1 & Hid1 & _).
        assert (ws1 = ws) as -> by congruence. congruence.
    + apply (Hsame p'); [done| |done]. rewrite Hb; [done|].
      intros id sock' Hs' Heq.
      destruct (H1 _ _ Hs') as (_ & ws1 & Hw1 & Hid1 & _).
      assert (ws1 = ws) as -> by congruence. congruence.
  - by apply (Hsame (onConnection h p)).
  - destruct (toAll_fields e a p) as (_ & o & Ho).
    destruct (maybe_publish_lookup o _ _ _ Hw)
      as (ws' & Hw' & Hid & Hal & Hcl & Htop & _ & Hemp).
    eexists _, ws'. split; [done|]. split; [simpl; by rewrite Ho|].
    split_and!; try done; try congruence.
    intros Hc. rewrite Hemp; [by rewrite <- Hc|]. by apply (H2 w).
  - destruct (to_fields g e a p) as (_ & o & Ho).
    destruct (maybe_publish_lookup o _ _ _ Hw)
      as (ws' & Hw' & Hid & Hal & Hcl & Htop & _ & Hemp).
    eexists _, ws'. split; [done|]. split; [simpl; by rewrite Ho|].
    split_and!; try done; try congruence.
    intros Hc. rewrite Hemp; [by rewrite <- Hc|]. by apply (H2 w).
  - destruct (_connections p !! id) as [sock|] eqn:Hs.
    + destruct (decide (sock_ws sock = w)) as [Heq|Hne].
      * subst w. eexists _, (ws_subscribe g ws). split; [done|]. split.
        { simpl. by rewrite sock_join_app, Hs, list_lookup_alter_eq, Hw. }
        by split_and!.
      * apply (Hsame (sock_join id g p)); [done| |done].
        by rewrite sock_join_app, Hs, list_lookup_alter_ne.
    + apply (Hsame (sock_join id g p)); [done| |done].
      by rewrite sock_join_app, Hs.
  - destruct (redis_deliver_fields c m p) as (_ & o & Ho).
    destruct (maybe_publish_lookup o _ _ _ Hw)
      as (ws' & Hw' & Hid & Hal & Hcl & Htop & _ & Hemp).
    eexists _, ws'. split; [done|]. split; [simpl; by rewrite Ho|].
    split_and!; try done; try congruence.
    intros Hc. rewrite Hemp; [by rewrite <- Hc|]. by apply (H2 w).
Qed.

(** *** What one event does to one registry entry *)

Lemma step_connections p ev p' :
  step p ev = Ok p' →
  match ev with
  | Open _ | Close _ | Timeout | Join _ _ => True
  | _ => _connections p' = _connections p
  end.
Proof.
  destruct ev; simpl; try done; intros [= <-]; try done.
  - apply on_message_connections.
  - apply on_drain_connections.
  - apply toAll_fields.
  - apply to_fields.
  - apply redis_deliver_fields.
Qed.

(** The identity of a registered handle is among the identities of the
    connection objects. *)
Lemma registered_in_ids p id sock :
  wf p → _connections p !! id = Some sock → id ∈ ids p.
Proof.
  intros [H1 _] Hs. destruct (H1 _ _ Hs) as (_ & ws & Hw & <- & _).
  unfold ids. apply list_elem_of_fmap. exists ws. split; [done|].
  by eapply list_elem_of_lookup_2.
Qed.

(** A key that is absent stays absent unless a connection opens under it. *)
Lemma step_absent p ev p' id :
  wf p → step p ev = Ok p' → _connections p !! id = None →
  id ∉ opened [ev] → _connections p' !! id = None.
Proof.
  intros Hwf Hs Hn Hfresh. pose proof (step_connections p ev p' Hs) as Hc.
  destruct ev as [r|v|v b|v|v| |h|e a|g e a|id' g|c m];
    try (by rewrite Hc); simpl in Hs.
  - injection Hs as <-. rewrite on_open_connections_ne; [done|].
    intros ->. apply Hfresh. by left.
  - injection Hs as <-.
    destruct (_app p !! v) as [wsv|] eqn:Hv;
      [|by rewrite ws_close_noop by (by rewrite Hv)].
    destruct (ws_closed wsv) eqn:Hclv;
      [by rewrite ws_close_noop by (rewrite Hv; by intros ? [= <-])|].
    rewrite (ws_close_connections v p wsv) by done.
    by apply lookup_delete_None; right.
  - destruct (keepAliveSockets_spec p Hwf) as (q & Hrun & _ & _ & _ & _ & Hab).
    assert (q = p') as -> by congruence. by apply Hab.
  - injection Hs as <-. unfold sock_join.
    destruct (_connections p !! id') as [sock|] eqn:Hs'; [|done]. simpl.
    rewrite lookup_insert_ne; [done|]. congruence.
Qed.

(** With pairwise distinct identities, a registered handle stays registered
    for the same connection object, or goes together with it. *)
Lemma step_registered p ev p' id sock :
  wf p → NoDup (ids p') → step p ev = Ok p' →
  _connections p !! id = Some sock →
  (∃ sock', _connections p' !! id = Some sock' ∧ sock_ws sock' = sock_ws sock)
  ∨ (_connections p' !! id = None
     ∧ ∃ ws', _app p' !! sock_ws sock = Some ws' ∧ ws_closed ws' = true).
Proof.
  intros Hwf Hnd Hs Hreg. pose proof (step_connections p ev p' Hs) as Hc.
  destruct (step_total p ev Hwf) as (q & Hq & _ & Hids).
  assert (q = p') as -> by congruence. rewrite Hids in Hnd.
  pose proof Hwf as [H1 _].
  destruct (H1 _ _ Hreg) as (_ & ws & Hw & Hid & Hcl & _).
  destruct ev as [r|v|v b|v|v| |h|e a|g e a|id' g|c m];
    try (left; exists sock; by rewrite Hc); simpl in Hs.
  - injection Hs as <-. left. exists sock. split; [|done].
    rewrite on_open_connections_ne; [done|].
    intros Heq. apply NoDup_app in Hnd as (_ & Hdis & _).
    apply (Hdis id); [by eapply registered_in_ids|].
    rewrite Heq. unfold opened. simpl. by left.
  - injection Hs as <-. rewrite app_nil_r in Hnd.
    destruct (_app p !! v) as [wsv|] eqn:Hv;
      [|left; exists sock; by rewrite ws_close_noop by (by rewrite Hv)].
    destruct (ws_closed wsv) eqn:Hclv;
      [left; exists sock;
       by rewrite ws_close_noop by (rewrite Hv; by intros ? [= <-])|].
    rewrite (ws_close_connections v p wsv), (ws_close_app v p wsv) by done.
    destruct (decide (ws_id wsv = id)) as [Heq|Hne].
    + right. rewrite Heq, lookup_delete_eq. split; [done|].
      assert (sock_ws sock = v) as ->.
      { eapply (wf_own_handle p v wsv); try done. by rewrite Heq. }
      exists (ws_end wsv). by rewrite list_lookup_alter_eq, Hv.
    + left. exists sock. by rewrite lookup_delete_ne.
  - destruct (keepAliveSockets_spec p Hwf) as (q & Hrun & _ & _ & Ha & _).
    assert (q = p') as -> by congruence. specialize (Ha _ _ _ Hreg Hw).
    destruct (ws_alive ws).
    + left. exists sock. by destruct Ha.
    + right. destruct Ha as [? ?]. split; [done|]. by exists (ws_end ws).
  - injection Hs as <-. left. unfold sock_join.
    destruct (_connections p !! id') as [sock1|] eqn:Hs1;
      [|by exists sock]. simpl.
    destruct (decide (id' = id)) as [->|Hne].
    + rewrite lookup_insert_eq. eexists. split; [done|]. simpl. congruence.
    + exists sock. by rewrite lookup_insert_ne.
Qed.

(** *** Runs seen from one connection *)

(** A closed connection object stays closed and receives nothing more. *)
Lemma run_closed p evs w ws :
  wf p → _app p !! w = Some ws → ws_closed ws = true →
  ∃ p' ws',
    run p evs = Ok p' ∧ wf p' ∧ ids p' = ids p ++ opened evs
    ∧ _app p' !! w = Some ws' ∧ ws_id ws' = ws_id ws
    ∧ ws_closed ws' = true ∧ ws_inbox ws' = ws_inbox ws.
Proof.
  revert p ws. induction evs as [|ev evs IH]; intros p ws Hwf Hw Hcl.
  { exists p, ws. split_and!; try done. unfold opened. simpl.
    by rewrite app_nil_r. }
  destruct (step_cell p ev w ws Hwf Hw)
    as (p1 & ws1 & Hs & Hw1 & Hid1 & Hc1 & _).
  destruct (Hc1 Hcl) as [Hcl1 Hin1].
  destruct (step_total p ev Hwf) as (q & Hq & Hwf1 & Hids1).
  assert (q = p1) as -> by congruence.
  destruct (IH p1 ws1 Hwf1 Hw1 Hcl1)
    as (p' & ws' & Hr & Hwf' & Hids' & Hw' & Hid' & Hcl' & Hin').
  exists p', ws'. split_and!; try done; try congruence.
  - simpl. by rewrite Hs.
  - by rewrite Hids', Hids1, (opened_cons ev evs), app_assoc.
Qed.

(** A key that is absent stays absent while no connection opens under it. *)
Lemma run_absent p evs p' id :
  wf p → run p evs = Ok p' → _connections p !! id = None →
  id ∉ opened evs → _connections p' !! id = None.
Proof.
  revert p. induction evs as [|ev evs IH]; intros p Hwf Hr Hn Hfresh.
  { simpl in Hr. congruence. }
  destruct (step_total p ev Hwf) as (p1 & Hs & Hwf1 & _).
  simpl in Hr. rewrite Hs in Hr. simpl in Hr.
  rewrite (opened_cons ev evs) in Hfresh.
  apply (IH p1); try done.
  - apply (step_absent p ev); try done. intros ?. apply Hfresh.
    apply elem_of_app. by left.
  - intros ?. apply Hfresh. apply elem_of_app. by right.
Qed.

(** An unanswered probe stays unanswered while no pong of the connection
    arrives. *)
Lemma run_unanswered p evs w id :
  wf p → NoDup (ids p ++ opened evs) → Pong w ∉ evs → unanswered p w id →
  ∃ p', run p evs = Ok p' ∧ wf p' ∧ NoDup (ids p') ∧ unanswered p' w id.
Proof.
  revert p. induction evs as [|ev evs IH]; intros p Hwf Hnd Hpong Hun.
  { exists p. split_and!; try done. unfold opened in Hnd. simpl in Hnd.
    by rewrite app_nil_r in Hnd. }
  destruct Hun as (ws & Hw & Hid & Hst).
  destruct (step_cell p ev w ws Hwf Hw)
    as (p1 & ws1 & Hs & Hw1 & Hid1 & Hc1 & _ & Hal1 & _).
  destruct (step_total p ev Hwf) as (q & Hq & Hwf1 & Hids1).
  assert (q = p1) as -> by congruence.
  rewrite (opened_cons ev evs), app_assoc, <- Hids1 in Hnd.
  assert (NoDup (ids p1)) as Hnd1 by (by apply NoDup_app in Hnd as [? _]).
  assert (ev ≠ Pong w) as Hev by (intros ->; apply Hpong; by left).
  destruct (IH p1) as (p' & Hr & Hwf' & Hnd' & Hun'); try done.
  { intros ?. apply Hpong. by right. }
  { exists ws1. split; [done|]. split; [congruence|].
    destruct Hst as [Hcl|(Hal & sock & Hreg & Hsw)];
      [left; by apply Hc1|].
    destruct (step_registered p ev p1 id sock Hwf Hnd1 Hs Hreg)
      as [(sock' & Hreg' & Hsw')|(_ & ws' & Hw' & Hcl')].
    - right. split; [by apply Hal1|]. exists sock'. split; [done|]. congruence.
    - left. congruence. }
  exists p'. split_and!; try done. simpl. by rewrite Hs.
Qed.

(** The sweep that finds a probe unanswered closes the connection and drops
    its handle. *)
Lemma sweep_unanswered p w id :
  wf p → NoDup (ids p) → unanswered p w id →
  ∃ p' ws', step p Timeout = Ok p' ∧ _connections p' !! id = None
            ∧ _app p' !! w = Some ws' ∧ ws_closed ws' = true.
Proof.
  intros Hwf Hnd (ws & Hw & Hid & Hst). simpl.
  destruct (keepAliveSockets_spec p Hwf) as (p' & Hrun & _ & _ & Ha & Hb & Hc).
  pose proof Hwf as [H1 _].
  destruct Hst as [Hcl|(Hal & sock & Hreg & Hsw)].
  - exists p', ws. split; [done|].
    assert (_connections p !! id = None) as Hn.
    { destruct (_connections p !! id) as [sock|] eqn:Hreg; [|done].
      destruct (H1 _ _ Hreg) as (_ & ws1 & Hw1 & _ & Hcl1 & _).
      assert (sock_ws sock = w) as Hsw
        by (eapply (wf_own_handle p w ws); try done; by rewrite Hid).
      congruence. }
    split; [by apply Hc|]. split; [|done]. rewrite Hb; [done|].
    intros id' sock' Hreg' Hsw.
    destruct (H1 _ _ Hreg') as (_ & ws1 & Hw1 & _ & Hcl1 & _). congruence.
  - subst w. specialize (Ha _ _ _ Hreg Hw). rewrite Hal in Ha.
    destruct Ha as [? ?]. by exists p', (ws_end ws).
Qed.

(** A connection that answers every probe is open at the end of the run. *)
Lemma answers_weaken {B} w b (evs : list (Event B)) :
  answers w b evs = true → answers w true evs = true.
Proof.
  revert b. induction evs as [|ev evs IH]; intros b; [done|].
  destruct ev; simpl; try apply IH.
  by intros [_ ?]%andb_true_iff.
Qed.

Lemma run_answers p evs w ws :
  wf p → _app p !! w = Some ws → ws_closed ws = false →
  answers w (ws_alive ws) evs = true → Close w ∉ evs →
  ∃ p' ws', run p evs = Ok p' ∧ _app p' !! w = Some ws'
            ∧ ws_closed ws' = false.
Proof.
  revert p ws. induction evs as [|ev evs IH]; intros p ws Hwf Hw Hcl Hans Hno.
  { by exists p, ws. }
  destruct (step_cell p ev w ws Hwf Hw)
    as (p1 & ws1 & Hs & Hw1 & _ & _ & Hop & Hoff & Hon & Hpong).
  destruct (step_total p ev Hwf) as (q & Hq & Hwf1 & _).
  assert (q = p1) as -> by congruence.
  assert (ev ≠ Close w) as Hev by (intros ->; apply Hno; by left).
  assert (Close w ∉ evs) as Hno' by (intros ?; apply Hno; by right).
  assert (ws_closed ws1 = false ∧ answers w (ws_alive ws1) evs = true)
    as [Hcl1 Hans1].
  { destruct ev as [r|v|v b|v|v| |h|e a|g e a|id' g|c m]; simpl in Hans;
      try (split; [by apply Hop|];
           destruct (ws_alive ws) eqn:Hal;
             [by rewrite Hon|by rewrite Hoff]).
    - split; [by apply Hop|]. case_bool_decide as Hv.
      + subst v. rewrite Hpong by done. by rewrite orb_true_r in Hans.
      + rewrite orb_false_r in Hans.
        assert (Pong (Buffer:=Buffer) v ≠ Pong w) by congruence.
        destruct (ws_alive ws) eqn:Hal; [by rewrite Hon|by rewrite Hoff].
    - apply andb_true_iff in Hans as [Hal Hans]. split; [by apply Hop|].
      destruct (ws_alive ws1); [by apply (answers_weaken w false)|done]. }
  destruct (IH p1 ws1 Hwf1 Hw1 Hcl1 Hans1 Hno') as (p' & ws' & Hr & ?).
  exists p', ws'. split; [|done]. simpl. by rewrite Hs.
Qed.

End Runs.

(** ** The registry is keyed by the identity of its handles *)

(** C10: after every sequence of events the run has not thrown, and every
    key of the connection map maps to a handle built with that key whose
    connection object carries that key as its [id]; when the random source
    never repeats a draw, looking up the [id] of a connection object yields
    the handle of that very object, or nothing. *)
Theorem C10_registry_keyed_by_identity {Buffer}
    (encodePacket : TeckosPacket → Buffer) (options : option TeckosOptions)
    (evs : list (Event Buffer)) :
  ∃ p, run encodePacket options (UWSProvider_new options) evs = Ok p
    ∧ (∀ id sock, _connections p !! id = Some sock →
         sock_id sock = id
         ∧ ∃ ws, _app p !! sock_ws sock = Some ws ∧ ws_id ws = id)
    ∧ (NoDup (draws evs) →
       ∀ w ws, _app p !! w = Some ws →
         _connections p !! ws_id ws = None
         ∨ ∃ sock, _connections p !! ws_id ws = Some sock
                   ∧ sock_ws sock = w ∧ sock_id sock = ws_id ws).
Proof.
  destruct (run_new_total encodePacket options evs) as (p & Hr & Hwf & Hid).
  exists p. split; [done|]. split.
  - intros id sock Hs. destruct Hwf as [H1 _].
    destruct (H1 _ _ Hs) as (? & ws & ? & ? & _). eauto.
  - intros Hnd w ws Hw.
    destruct (_connections p !! ws_id ws) as [sock|] eqn:Hs; [right|by left].
    exists sock. split; [done|]. split.
    + eapply wf_own_handle; eauto. rewrite Hid. by apply NoDup_opened.
    + destruct Hwf as [H1 _]. by destruct (H1 _ _ Hs).
Qed.

(** ** The heartbeat *)

(** C5: in every state a run of the provider reaches, and for every
    registered connection: one sweep clears the flag of a live connection and
    pings it without disconnecting it, and disconnects and unregisters a
    connection whose flag is already clear; after two sweeps with no pong of
    the connection in between (the identities being pairwise distinct) the
    connection is closed and its handle is gone; and a connection whose pong
    arrives before each following sweep is still open after the run, unless
    the transport itself closes it. *)
Theorem C5_heartbeat_sweep {Buffer} (encodePacket : TeckosPacket → Buffer)
    (options : option TeckosOptions) (evs : list (Event Buffer)) :
  ∃ p, run encodePacket options (UWSProvider_new options) evs = Ok p
    ∧ ∀ id sock ws,
        _connections p !! id = Some sock →
        _app p !! sock_ws sock = Some ws →
        (∃ p', step encodePacket options p Timeout = Ok p'
           ∧ if ws_alive ws
             then _connections p' !! id = Some sock
                  ∧ _app p' !! sock_ws sock = Some (ws_probe ws)
                  ∧ ws_alive (ws_probe ws) = false
                  ∧ ws_pings (ws_probe ws) = ws_pings ws ++ ["hey"]
                  ∧ ws_closed (ws_probe ws) = false
             else _connections p' !! id = None
                  ∧ _app p' !! sock_ws sock = Some (ws_end ws)
                  ∧ ws_closed (ws_end ws) = true)
        ∧ (∀ evs',
             NoDup (draws (evs ++ evs')) → Pong (sock_ws sock) ∉ evs' →
             ∃ p'' ws'',
               run encodePacket options p (Timeout :: evs' ++ [Timeout]) = Ok p''
               ∧ _connections p'' !! id = None
               ∧ _app p'' !! sock_ws sock = Some ws''
               ∧ ws_closed ws'' = true)
        ∧ (∀ evs',
             answers (sock_ws sock) (ws_alive ws) evs' = true →
             Close (sock_ws sock) ∉ evs' →
             ∃ p'' ws'',
               run encodePacket options p evs' = Ok p''
               ∧ _app p'' !! sock_ws sock = Some ws''
               ∧ ws_closed ws'' = false).
Proof.
  destruct (run_new_total encodePacket options evs) as (p & Hr & Hwf & Hid).
  exists p. split; [done|]. intros id sock ws Hreg Hw.
  pose proof Hwf as [H1 _].
  destruct (H1 _ _ Hreg) as (_ & ws0 & Hw0 & Hwid & Hcl & _).
  assert (ws0 = ws) as -> by congruence.
  destruct (keepAliveSockets_spec p Hwf) as (p1 & Hs1 & Hwf1 & Hid1 & Ha & _).
  specialize (Ha _ _ _ Hreg Hw). split_and!.
  - exists p1. split; [done|]. destruct (ws_alive ws); by destruct Ha.
  - intros evs' Hnd Hpong.
    assert (unanswered p1 (sock_ws sock) id) as Hun.
    { destruct (ws_alive ws); destruct Ha as [Hc1 Hw1].
      - exists (ws_probe ws). split_and!; try done. right. eauto.
      - exists (ws_end ws). split_and!; try done. by left. }
    apply NoDup_opened in Hnd. rewrite opened_app, <- Hid in Hnd.
    assert (ids p1 = ids p) as Hids1 by done.
    destruct (run_unanswered encodePacket options p1 evs' (sock_ws sock) id)
      as (p2 & Hr2 & Hwf2 & Hnd2 & Hun2); try done.
    { by rewrite Hids1. }
    destruct (sweep_unanswered encodePacket options p2 (sock_ws sock) id)
      as (p3 & ws3 & Hs3 & ? & ? & ?); try done.
    exists p3, ws3. split; [|done].
    simpl. rewrite Hs1. simpl. rewrite run_app, Hr2. simpl.
    simpl in Hs3. by rewrite Hs3.
  - intros evs' Hans Hno.
    by apply (run_answers encodePacket options p evs' (sock_ws sock) ws).
Qed.

(** ** Closed connections *)

(** C7: when an open connection closes, the registry no longer has its
    identity; whatever happens afterwards, nothing throws, the closed
    connection receives nothing (in particular not a broadcast to ALL), its
    identity stays out of the registry as long as no draw is repeated, and a
    frame reported for it is answered by a logged error only. *)
Theorem C7_after_close {Buffer} (encodePacket : TeckosPacket → Buffer)
    (options : option TeckosOptions) (evs : list (Event Buffer)) :
  ∃ p, run encodePacket options (UWSProvider_new options) evs = Ok p
    ∧ ∀ w ws,
        _app p !! w = Some ws → ws_closed ws = false →
        ∃ p1, step encodePacket options p (Close w) = Ok p1
          ∧ _connections p1 !! ws_id ws = None
          ∧ ∀ evs', ∃ p2 ws2,
              run encodePacket options p1 evs' = Ok p2
              ∧ _app p2 !! w = Some ws2 ∧ ws_closed ws2 = true
              ∧ ws_inbox ws2 = ws_inbox ws
              ∧ (∀ event args, ∃ p3 ws3,
                   step encodePacket options p2 (ToAll event args) = Ok p3
                   ∧ _app p3 !! w = Some ws3
                   ∧ ws_inbox ws3 = ws_inbox ws)
              ∧ (NoDup (draws (evs ++ evs')) →
                 _connections p2 !! ws_id ws = None)
              ∧ (∀ buffer,
                   _connections p2 !! ws_id ws = None →
                   step encodePacket options p2 (Message w buffer)
                   = Ok (console_error
                           ("Got message from unknown connection: "
                              +:+ ws_id ws) p2)).
Proof.
  destruct (run_new_total encodePacket options evs) as (p & Hr & Hwf & Hid).
  exists p. split; [done|]. intros w ws Hw Hcl.
  exists (ws_close w p). split; [done|].
  assert (_connections (ws_close w p) !! ws_id ws = None) as Hgone
    by (by rewrite (ws_close_connections w p ws), lookup_delete_eq).
  split; [done|]. intros evs'.
  assert (wf (ws_close w p)) as Hwf1 by (by apply ws_close_wf).
  assert (_app (ws_close w p) !! w = Some (ws_end ws)) as Hw1
    by (by rewrite (ws_close_app w p ws), list_lookup_alter_eq, Hw).
  assert (ids (ws_close w p) = ids p) as Hids1.
  { unfold ids. rewrite (ws_close_app w p ws) by done.
    by apply fmap_alter_fixed. }
  destruct (run_closed encodePacket options (ws_close w p) evs' w (ws_end ws))
    as (p2 & ws2 & Hr2 & Hwf2 & Hids2 & Hw2 & Hid2 & Hcl2 & Hin2); try done.
  exists p2, ws2. split_and!; try done.
  - intros event args.
    destruct (run_closed encodePacket options p2 [ToAll event args] w ws2)
      as (p3 & ws3 & Hr3 & _ & _ & Hw3 & _ & _ & Hin3); try done.
    exists p3, ws3. split; [exact Hr3|]. split; [done|].
    by rewrite Hin3, Hin2.
  - intros Hnd.
    apply (run_absent encodePacket options (ws_close w p) evs'); try done.
    apply NoDup_opened in Hnd. rewrite opened_app in Hnd.
    apply NoDup_app in Hnd as (_ & Hdis & _). apply Hdis.
    rewrite <- Hid. unfold ids. apply list_elem_of_fmap. exists ws.
    split; [done|]. by eapply list_elem_of_lookup_2.
  - intros buffer Hn. simpl. unfold on_message. rewrite Hw2.
    simpl in Hid2. by rewrite Hid2, Hn.
Qed.

(** ** The configuration is fixed by the constructor *)

Section Config.
Context {Buffer : Type}.
Variable encodePacket : TeckosPacket → Buffer.
Variable options : option TeckosOptions.
Implicit Types (p : UWSProvider Buffer) (ev : Event Buffer).

Lemma config_new :
  config (UWSProvider_new (Buffer:=Buffer) options)
  = (merge_options options, 
     if truthy (options ≫= redisUrl) then Some ["a"; "g.*"] else None,
     truthy (options ≫= redisUrl)).
Proof.
  unfold config, UWSProvider_new, has_backbone.
  destruct options as [[[[|c url]|] ? ? ?]|]; try done.
  simpl. by rewrite debug_log_options.
Qed.

Lemma debug_log_config d l p :
  config (debug_log d l p) = config p
  ∧ _handlers (debug_log d l p) = _handlers p.
Proof. unfold debug_log. by destruct (truthy d). Qed.

Lemma ws_close_config w p :
  config (ws_close w p) = config p ∧ _handlers (ws_close w p) = _handlers p.
Proof.
  unfold ws_close, on_close. destruct (_app p !! w) as [ws|]; [|done].
  destruct (ws_closed ws); [done|]. simpl.
  destruct (alter ws_end w (_app p) !! w) as [ws'|]; [|done]. simpl.
  destruct (_connections p !! ws_id ws'); [|done].
  unfold config, has_backbone. simpl.
  by rewrite debug_log_options, debug_log_sub, debug_log_pub,
    debug_log_handlers.
Qed.

Lemma keepAlive_one_config u p p' :
  keepAlive_one u p = Ok p' →
  config p' = config p ∧ _handlers p' = _handlers p.
Proof.
  unfold keepAlive_one. destruct (_connections p !! u) as [sock|]; [|done].
  destruct (_app p !! sock_ws sock) as [ws|]; [|done].
  destruct (ws_alive ws).
  - destruct (ws_closed ws); [done|]. by intros [= <-].
  - intros [= <-]. unfold sock_disconnect.
    destruct (ws_close_config (sock_ws sock)
                (debug_log (debug (_options p))
                   ("Ping pong timeout for " +:+ u
                      +:+ ", disconnecting client...") p)) as [-> ->].
    apply debug_log_config.
Qed.

Lemma forEach_keepAlive_config us p p' :
  forEach_keepAlive us p = Ok p' →
  config p' = config p ∧ _handlers p' = _handlers p.
Proof.
  revert p. induction us as [|u us IH]; intros p; simpl; [by intros [= <-]|].
  destruct (keepAlive_one u p) as [p1|e] eqn:E; simpl; [|done].
  intros H. destruct (IH _ H) as [-> ->]. by eapply keepAlive_one_config.
Qed.

(** No event changes the options, the subscriptions of the backbone or the
    presence of the backbone, and only [onConnection] adds a handler. *)
Lemma step_config p ev p' :
  step encodePacket options p ev = Ok p' →
  config p' = config p ∧ _handlers p' = _handlers p ++ registers ev.
Proof.
  destruct ev; simpl; rewrite ?app_nil_r; try (intros [= <-]); try done.
  - destruct (on_open_kept options randomBytes p) as (Ho & Hs & Hp & Hh).
    unfold config, has_backbone. by rewrite Ho, Hs, Hp, Hh.
  - unfold on_message. destruct (_app p !! w); [|done].
    by destruct (_connections p !! _).
  - unfold on_drain. destruct (_app p !! w); [|done].
    apply debug_log_config.
  - apply ws_close_config.
  - apply forEach_keepAlive_config.
  - unfold toAll. destruct (_pub p) eqn:E.
    + unfold config, has_backbone. simpl. by rewrite E.
    + destruct (debug_log_config (debug (_options p))
                  ("Publishing event " +:+ event +:+ " to group a") p)
        as [<- <-].
      unfold config, has_backbone. simpl. done.
  - unfold to. destruct (_pub p) eqn:E.
    + unfold config, has_backbone. simpl. by rewrite E.
    + destruct (debug_log_config (debug (_options p))
                  ("Publishing event " +:+ event +:+ " to group "
                     +:+ group) p) as [<- <-].
      unfold config, has_backbone. simpl. done.
  - unfold sock_join. by destruct (_connections p !! id).
  - unfold redis_deliver. destruct (_sub p); [|done].
    case_bool_decide; [done|]. destruct (String.prefix "g." channel); [|done].
    unfold sub_on_pmessage.
    destruct (debug_log_config (debug (_options p))
                ("Publishing message from REDIS to group "
                   +:+ substr 2 channel) p) as [<- <-].
    unfold config, has_backbone. simpl. done.
Qed.

Lemma run_config p evs p' :
  run encodePacket options p evs = Ok p' → config p' = config p.
Proof.
  revert p. induction evs as [|ev evs IH]; intros p; simpl; [by intros [= <-]|].
  destruct (step encodePacket options p ev) as [p1|e] eqn:E; simpl; [|done].
  intros H. rewrite (IH _ H). by eapply step_config.
Qed.

Lemma step_blind p ev p' :
  step encodePacket options p ev = Ok p' →
  Forall debug_blind (_handlers p) → blind_event ev →
  Forall debug_blind (_handlers p').
Proof.
  intros [_ ->]%step_config Hp Hev. apply Forall_app. split; [done|].
  destruct ev; simpl; try constructor; done.
Qed.

(** The stored options are those the constructor computed, for good. *)
Lemma run_options evs p :
  run encodePacket options (UWSProvider_new options) evs = Ok p →
  _options p = merge_options options.
Proof.
  intros H. apply run_config in H. rewrite config_new in H.
  unfold config in H. congruence.
Qed.

Lemma run_no_backbone evs p :
  truthy (options ≫= redisUrl) = false →
  run encodePacket options (UWSProvider_new options) evs = Ok p →
  _pub p = None.
Proof.
  intros Hno H. apply run_config in H. rewrite config_new, Hno in H.
  unfold config, has_backbone in H. destruct (_pub p); [|done].
  by injection H.
Qed.

End Config.

(** ** Broadcasts *)

Lemma on_open_pub {Buffer} options r (p : UWSProvider Buffer) :
  _pub (on_open options r p) = _pub p.
Proof. apply on_open_kept. Qed.

(** What a local publication puts into the inbox of one connection object. *)
Lemma app_publish_lookup {Buffer} topic (message : Buffer)
    (app : list (WebSocket Buffer)) w ws :
  app !! w = Some ws →
  ∃ ws', app_publish topic message app !! w = Some ws'
         ∧ ws_inbox ws'
           = if bool_decide (topic ∈ ws_topics ws)
             then ws_inbox ws ++ [message] else ws_inbox ws.
Proof.
  intros Hw. unfold app_publish. rewrite list_lookup_fmap, Hw. simpl.
  eexists. split; [done|]. unfold ws_deliver. by case_bool_decide.
Qed.

(** C4, as the code has it: without a backbone, a broadcast to a group other
    than ['a'] puts the packet, once, into the inbox of every registered
    connection that joined the group and leaves the inbox of every other
    registered connection as it is. *)
Theorem C4_group_broadcast_is_local_to_group {Buffer}
    (encodePacket : TeckosPacket → Buffer) (options : option TeckosOptions)
    (evs : list (Event Buffer)) (group event : string) (args : list Value) :
  truthy (options ≫= redisUrl) = false →
  group ≠ "a" →
  ∃ p, run encodePacket options (UWSProvider_new options) evs = Ok p
    ∧ ∀ id sock ws,
        _connections p !! id = Some sock →
        _app p !! sock_ws sock = Some ws →
        ∃ ws',
          _app (to encodePacket group event args p) !! sock_ws sock = Some ws'
          ∧ ws_inbox ws'
            = if bool_decide (group ∈ sock_groups sock)
              then ws_inbox ws ++ [encodePacket (event_packet event args)]
              else ws_inbox ws.
Proof.
  intros Hno Hg.
  destruct (run_new_total encodePacket options evs) as (p & Hr & Hwf & _).
  exists p. split; [done|]. intros id sock ws Hreg Hw.
  pose proof (run_no_backbone encodePacket options evs p Hno Hr) as Hpub.
  destruct Hwf as [H1 _].
  destruct (H1 _ _ Hreg) as (_ & ws0 & Hw0 & _ & _ & Htop).
  assert (ws0 = ws) as -> by congruence.
  unfold to. rewrite Hpub. simpl. rewrite debug_log_app.
  destruct (app_publish_lookup group (encodePacket (event_packet event args))
              (_app p) _ _ Hw) as (ws' & Hw' & Hin).
  exists ws'. split; [done|]. rewrite Hin, Htop.
  rewrite (bool_decide_ext (group ∈ {["a"]} ∪ sock_groups sock)
             (group ∈ sock_groups sock)); [done|].
  rewrite elem_of_union, elem_of_singleton.
  split; [by intros [?|?]|by right].
Qed.

(** A run on which C4 fails for the group name ['a']: the second connection
    joined only the group ['x'], the first joined ['a']; a broadcast to the
    group ['a'] reaches the second connection all the same, through the
    subscription to ['a'] every connection gets when it opens. *)
Lemma C4_group_a_reaches_other_group :
  ∃ p sock1 sock2 ws2,
    run loopback_encode None (UWSProvider_new None)
        [Open [Byte.x01]; Open [Byte.x02]; Join "01" "a"; Join "02" "x"]
    = Ok p
    ∧ _pub p = None
    ∧ _connections p !! "01" = Some sock1
    ∧ _connections p !! "02" = Some sock2
    ∧ bool_decide ("a" ∈ sock_groups sock1) = true
    ∧ bool_decide ("a" ∈ sock_groups sock2) = false
    ∧ bool_decide (sock_groups sock2 = {["x"]}) = true
    ∧ _app (to loopback_encode "a" "news" [] p) !! sock_ws sock2 = Some ws2
    ∧ ws_inbox ws2 = [event_packet "news" []].
Proof.
  eexists _, _, _, _. split; [reflexivity|].
  split; [reflexivity|]. split; [reflexivity|]. split; [reflexivity|].
  split; [by vm_compute|]. split; [by vm_compute|]. split; [by vm_compute|].
  split; reflexivity.
Qed.

(** A run that meets the hypotheses of the amended C4. *)
Lemma C4_group_broadcast_witness :
  ∃ p, run loopback_encode None (UWSProvider_new None)
         [Open [Byte.x01]; Open [Byte.x02]; Join "01" "blue"; Join "02" "red"]
       = Ok p
    ∧ ∀ id sock ws,
        _connections p !! id = Some sock →
        _app p !! sock_ws sock = Some ws →
        ∃ ws',
          _app (to loopback_encode "blue" "news" [] p) !! sock_ws sock
          = Some ws'
          ∧ ws_inbox ws'
            = if bool_decide ("blue" ∈ sock_groups sock)
              then ws_inbox ws ++ [loopback_encode (event_packet "news" [])]
              else ws_inbox ws.
Proof.
  apply (C4_group_broadcast_is_local_to_group loopback_encode None
           [Open [Byte.x01]; Open [Byte.x02]; Join "01" "blue"; Join "02" "red"]
           "blue" "news" []).
  - reflexivity.
  - discriminate.
Defined.

(** ** The inbound relay of the global channel *)

(** The listener of ['message'] takes two characters off the channel name;
    the global channel ['a'] has a single one. *)
Lemma sub_on_message_global {Buffer} (message : Buffer)
    (p : UWSProvider Buffer) :
  sub_on_message "a" message p
  = set_app (app_publish EmptyString message (_app p)) p.
Proof. reflexivity. Qed.

(** In a well-formed state where no handle joined a group named by the empty
    string, what the relay re-delivers from the global channel reaches no
    registered connection. *)
Lemma relay_global_reaches_nobody {Buffer} (message : Buffer)
    (p : UWSProvider Buffer) id sock ws :
  wf p → is_Some (_sub p) →
  _connections p !! id = Some sock → EmptyString ∉ sock_groups sock →
  _app p !! sock_ws sock = Some ws →
  _app (redis_deliver "a" message p) !! sock_ws sock = Some ws.
Proof.
  intros [H1 _] [subs Hsub] Hreg Hg Hw. unfold redis_deliver. rewrite Hsub.
  rewrite bool_decide_eq_true_2 by done. rewrite sub_on_message_global. simpl.
  unfold app_publish. rewrite list_lookup_fmap, Hw. simpl. f_equal.
  unfold ws_deliver. rewrite bool_decide_eq_false_2; [done|].
  destruct (H1 _ _ Hreg) as (_ & ws0 & Hw0 & _ & _ & Htop).
  assert (ws0 = ws) as -> by congruence. rewrite Htop.
  rewrite elem_of_union, elem_of_singleton. by intros [?|?].
Qed.

(** C1, at an input where the code departs from it: with a backbone, two
    connections are open and registered; [toAll("ping", 42)] publishes the
    packet on channel ['a']; when the relay receives it from channel ['a'] it
    publishes it locally on the topic [''], and neither connection receives
    it. *)
Theorem C1_relayed_broadcast_reaches_nobody :
  ∃ p p',
    run loopback_encode (Some with_redis) (UWSProvider_new (Some with_redis))
        [Open [Byte.x01]; Open [Byte.x02]; ToAll "ping" [VNum 42]]
    = Ok p
    ∧ Object_keys (_connections p) = ["01"; "02"]
    ∧ _pub p = Some [("a", ping42)]
    ∧ ws_inbox <$> _app p = [[]; []]
    ∧ step loopback_encode (Some with_redis) p (Backbone "a" ping42) = Ok p'
    ∧ substr 2 "a" = EmptyString
    ∧ _app p' = app_publish EmptyString ping42 (_app p)
    ∧ ws_inbox <$> _app p' = [[]; []].
Proof.
  eexists _, _. split; [reflexivity|]. split; [by vm_compute|].
  split; [reflexivity|]. split; [reflexivity|]. split; [reflexivity|].
  split; [reflexivity|]. split; reflexivity.
Qed.

(** C6, at an input where the code departs from it. A broadcast to ALL
    builds one packet of type EVENT whose data are the event name followed by
    the arguments in order; that much holds for every event name and
    argument list. But in the two-connection scenario on a provider with a
    backbone, A and B hold distinct identities, [toAll("ping", 42)] hands the
    one buffer, which decodes to [{type: EVENT, data: ["ping", 42]}], to the
    backbone on channel ['a'] and to no connection, and when the backbone
    brings it back on channel ['a'] the relay publishes it on the topic [''],
    so that neither A nor B ever receives it. *)
Theorem C6_backbone_scenario_reaches_nobody :
  (∀ event args,
     type (event_packet event args) = EVENT
     ∧ data (event_packet event args) = VStr event :: args)
  ∧ ∃ p sockA sockB buffer p',
      run loopback_encode (Some with_redis) (UWSProvider_new (Some with_redis))
          [Open [Byte.x01]; Open [Byte.x02]; ToAll "ping" [VNum 42]]
      = Ok p
      ∧ _connections p !! generateUUID [Byte.x01] = Some sockA
      ∧ _connections p !! generateUUID [Byte.x02] = Some sockB
      ∧ sock_id sockA ≠ sock_id sockB
      ∧ ws_id <$> _app p = [sock_id sockA; sock_id sockB]
      ∧ ws_closed <$> _app p = [false; false]
      ∧ _pub p = Some [("a", buffer)]
      ∧ loopback_decode buffer
        = Some {| type := EVENT; data := [VStr "ping"; VNum 42] |}
      ∧ ws_inbox <$> _app p = [[]; []]
      ∧ step loopback_encode (Some with_redis) p (Backbone "a" buffer) = Ok p'
      ∧ ws_inbox <$> _app p' = [[]; []].
Proof.
  split; [done|]. eexists _, _, _, _, _.
  split; [reflexivity|]. split; [reflexivity|]. split; [reflexivity|].
  split; [by vm_compute|]. split; [reflexivity|]. split; [reflexivity|].
  split; [reflexivity|]. split; [reflexivity|]. split; [reflexivity|].
  split; reflexivity.
Qed.

(** ** The debug flag only controls diagnostic logging *)

Section Observable.
Context {Buffer : Type}.
Variable encodePacket : TeckosPacket → Buffer.
Variable options : option TeckosOptions.
Implicit Types (p : UWSProvider Buffer) (ev : Event Buffer).

Lemma observable_debug_log d l p : observable (debug_log d l p) = observable p.
Proof.
  unfold debug_log. destruct (truthy d); [|done].
  unfold observable, console_log. simpl.
  by rewrite List.filter_app, app_nil_r.
Qed.

Lemma observable_console_error e p :
  observable (console_error e p) = console_error e (observable p).
Proof.
  unfold observable, console_error. simpl. by rewrite List.filter_app.
Qed.

Lemma on_message_observable w buffer p :
  observable (on_message w buffer p) = on_message w buffer (observable p).
Proof.
  unfold on_message. simpl. destruct (_app p !! w) as [ws|]; [|done].
  rewrite lookup_fmap. destruct (_connections p !! ws_id ws); simpl; [done|].
  apply observable_console_error.
Qed.

Lemma on_drain_observable w p :
  observable (on_drain options w p) = on_drain (quiet options) w (observable p).
Proof.
  unfold on_drain. simpl. destruct (_app p !! w) as [ws|]; [|done].
  apply observable_debug_log.
Qed.

Lemma on_close_observable w p :
  observable (on_close w p) = on_close w (observable p).
Proof.
  unfold on_close. simpl. destruct (_app p !! w) as [ws|]; [|done].
  rewrite lookup_fmap. destruct (_connections p !! ws_id ws) as [sock|]; simpl;
    [|done].
  unfold debug_log. simpl.
  destruct (truthy (debug (_options p))); unfold observable; simpl;
    rewrite fmap_delete, ?List.filter_app, ?app_nil_r; done.
Qed.

Lemma ws_close_observable w p :
  observable (ws_close w p) = ws_close w (observable p).
Proof.
  unfold ws_close. simpl. destruct (_app p !! w) as [ws|]; [|done].
  destruct (ws_closed ws); [done|]. by rewrite on_close_observable.
Qed.

Lemma keepAlive_one_observable u p :
  observable <$> keepAlive_one u p = keepAlive_one u (observable p).
Proof.
  unfold keepAlive_one. simpl. rewrite lookup_fmap.
  destruct (_connections p !! u) as [sock|]; simpl; [|done].
  destruct (_app p !! sock_ws sock) as [ws|]; [|done].
  destruct (ws_alive ws).
  - by destruct (ws_closed ws).
  - unfold sock_disconnect. simpl. f_equal.
    by rewrite ws_close_observable, observable_debug_log.
Qed.

Lemma forEach_keepAlive_observable us p :
  observable <$> forEach_keepAlive us p = forEach_keepAlive us (observable p).
Proof.
  revert p. induction us as [|u us IH]; intros p; simpl; [done|].
  rewrite <- keepAlive_one_observable.
  destruct (keepAlive_one u p) as [p1|e]; simpl; [apply IH|done].
Qed.

Lemma Object_keys_erase (m : gmap string UWSSocket) :
  Object_keys (erase_sock <$> m) = Object_keys m.
Proof.
  unfold Object_keys. rewrite map_to_list_fmap, <- list_fmap_compose.
  apply list_fmap_ext. by intros _ [k v] _.
Qed.

Lemma toAll_observable event args p :
  observable (toAll encodePacket event args p)
  = toAll encodePacket event args (observable p).
Proof.
  unfold toAll. simpl. destruct (_pub p); [done|].
  unfold debug_log. simpl.
  destruct (truthy (debug (_options p))); unfold observable; simpl;
    rewrite ?List.filter_app, ?app_nil_r; done.
Qed.

Lemma to_observable group event args p :
  observable (to encodePacket group event args p)
  = to encodePacket group event args (observable p).
Proof.
  unfold to. simpl. destruct (_pub p); [done|].
  unfold debug_log. simpl.
  destruct (truthy (debug (_options p))); unfold observable; simpl;
    rewrite ?List.filter_app, ?app_nil_r; done.
Qed.

Lemma sock_join_observable id group p :
  observable (sock_join id group p) = sock_join id group (observable p).
Proof.
  unfold sock_join. simpl. rewrite lookup_fmap.
  destruct (_connections p !! id) as [sock|]; simpl; [|done].
  unfold observable. simpl. by rewrite fmap_insert.
Qed.

Lemma do_calls_observable handle calls p :
  observable (do_calls handle calls p)
  = do_calls (erase_sock <$> handle) calls (observable p).
Proof.
  destruct handle as [sock|]; simpl; [|done]. revert p.
  induction calls as [|[g|] calls IH]; intros p; simpl; [done|..]; rewrite IH.
  - by rewrite sock_join_observable.
  - unfold sock_disconnect. by rewrite ws_close_observable.
Qed.

(** The handlers of [open] run alike on a state and on what can be observed
    of it, when they do not read the debug flag of the handle. *)
Lemma forEach_handler_observable hs id p :
  Forall debug_blind hs →
  (forEach_handler hs id (observable p)).1
  = observable (forEach_handler hs id p).1
  ∧ (forEach_handler hs id (observable p)).2 = (forEach_handler hs id p).2.
Proof.
  intros Hb. revert p.
  induction Hb as [|h hs Hh _ IH]; intros p; simpl; [done|].
  rewrite lookup_fmap. set (handle := _connections p !! id).
  rewrite Hh.
  assert (sock_id <$> (erase_sock <$> handle) = sock_id <$> handle) as ->
    by (by destruct handle).
  set (n := HandlerCalled (h_name h) (sock_id <$> handle)).
  change (notify n (observable p)) with (observable (notify n p)).
  rewrite <- do_calls_observable.
  destruct (h_body h handle).2; simpl; [done|]. apply IH.
Qed.

Lemma on_open_observable r p :
  Forall debug_blind (_handlers p) →
  observable (on_open options r p) = on_open (quiet options) r (observable p).
Proof.
  intros Hb. unfold on_open.
  assert (open_base (quiet options) r (observable p)
          = observable (open_base options r p)) as ->
    by (unfold open_base, observable; simpl; by rewrite fmap_insert).
  assert (_handlers (observable (open_base options r p)) = _handlers p) as ->
    by done.
  assert (_handlers (open_base options r p) = _handlers p) as -> by done.
  destruct (forEach_handler_observable (_handlers p) (generateUUID r)
              (open_base options r p) Hb) as [H1 H2].
  destruct (forEach_handler (_handlers p) (generateUUID r)
              (observable (open_base options r p))) as [q' e'].
  destruct (forEach_handler (_handlers p) (generateUUID r)
              (open_base options r p)) as [q e].
  simpl in H1, H2. subst q' e'. destruct e; [|done].
  by rewrite observable_console_error.
Qed.

Lemma redis_deliver_observable channel (message : Buffer) p :
  observable (redis_deliver channel message p)
  = redis_deliver channel message (observable p).
Proof.
  unfold redis_deliver. simpl. destruct (_sub p); [|done].
  case_bool_decide; [done|]. destruct (String.prefix "g." channel); [|done].
  unfold sub_on_pmessage, debug_log. simpl.
  destruct (truthy (debug (_options p))); unfold observable; simpl;
    rewrite ?List.filter_app, ?app_nil_r; done.
Qed.

(** Erasing the debug flag and the [console.log] lines commutes with every
    event. *)
Lemma step_observable p ev :
  Forall debug_blind (_handlers p) →
  observable <$> step encodePacket options p ev
  = step encodePacket (quiet options) (observable p) ev.
Proof.
  intros Hb. destruct ev; simpl; try done.
  - by rewrite on_open_observable.
  - by rewrite on_message_observable.
  - by rewrite on_drain_observable.
  - by rewrite ws_close_observable.
  - unfold keepAliveSockets. simpl.
    by rewrite Object_keys_erase, forEach_keepAlive_observable.
  - by rewrite toAll_observable.
  - by rewrite to_observable.
  - by rewrite sock_join_observable.
  - by rewrite redis_deliver_observable.
Qed.

Lemma run_observable p evs :
  Forall debug_blind (_handlers p) → Forall blind_event evs →
  observable <$> run encodePacket options p evs
  = run encodePacket (quiet options) (observable p) evs.
Proof.
  intros Hb Hevs. revert p Hb.
  induction Hevs as [|ev evs Hev _ IH]; intros p Hb; simpl; [done|].
  rewrite <- step_observable by done.
  destruct (step encodePacket options p ev) as [p1|e] eqn:E; simpl; [|done].
  apply IH. by eapply step_blind.
Qed.

Lemma new_observable :
  observable (UWSProvider_new (Buffer:=Buffer) options)
  = UWSProvider_new (quiet options).
Proof.
  unfold UWSProvider_new.
  destruct options as [[[[|c url]|] ? ? dbg]|]; try done.
  simpl. unfold debug_log. by destruct (truthy dbg).
Qed.

End Observable.

(** C9: two runs of the provider on the same operations and events, under
    options that differ at most in the debug flag, agree on everything but
    the lines written by [console.log]: both throw the same exception, or
    both end in states with the same connection objects (flags, topics,
    inboxes, pings), the same registry, the same publications on the
    backbone, the same handlers, the same errors on the console and the same
    calls into the application; and [listen] settles its promise alike. The
    application callbacks are taken not to read the private debug flag of
    the handle. *)
Theorem C9_debug_only_affects_logging {Buffer}
    (encodePacket : TeckosPacket → Buffer)
    (options1 options2 : option TeckosOptions) (evs : list (Event Buffer)) :
  quiet options1 = quiet options2 →
  Forall blind_event evs →
  observable <$> run encodePacket options1 (UWSProvider_new options1) evs
  = observable <$> run encodePacket options2 (UWSProvider_new options2) evs
  ∧ ∀ port socket (p1 p2 : UWSProvider Buffer),
      observable p1 = observable p2 →
      observable <$> listen port socket p1
      = observable <$> listen port socket p2.
Proof.
  intros Hq Hevs. split;
    [|intros port [tok|] p1 p2 Hp; simpl; [by rewrite Hp|done]].
  assert (∀ o, Forall debug_blind
                 (_handlers (UWSProvider_new (Buffer:=Buffer) o))) as Hh.
  { intros o. unfold UWSProvider_new.
    destruct (redisUrl (merge_options o)) as [url|]; [|constructor].
    destruct (truthy url); [|constructor]. simpl.
    rewrite debug_log_handlers. constructor. }
  rewrite !run_observable, !new_observable by done. by rewrite Hq.
Qed.

(** Two runs that differ in the debug flag only. *)
Lemma C9_debug_only_affects_logging_witness :
  observable <$> run loopback_encode None (UWSProvider_new None)
                   [OnConnection quiet_handler; Open [Byte.x01]; Drain 0;
                    ToAll "ping" [VNum 42]; Timeout; Timeout]
  = observable <$> run loopback_encode (Some with_debug)
                     (UWSProvider_new (Some with_debug))
                     [OnConnection quiet_handler; Open [Byte.x01]; Drain 0;
                      ToAll "ping" [VNum 42]; Timeout; Timeout]
  ∧ ∀ port socket (p1 p2 : UWSProvider TeckosPacket),
      observable p1 = observable p2 →
      observable <$> listen port socket p1
      = observable <$> listen port socket p2.
Proof.
  apply (C9_debug_only_affects_logging loopback_encode None (Some with_debug)).
  - reflexivity.
  - repeat constructor.
Defined.

(** ** Runs on concrete inputs *)

(** With the debug flag on, the two runs of the witness of C9 differ in what
    [console.log] wrote. *)
Example debug_changes_the_log :
  (console <$> run loopback_encode (Some with_debug)
                 (UWSProvider_new (Some with_debug))
                 [Open [Byte.x01]; ToAll "ping" [VNum 42]; Timeout; Timeout])
  = Ok [ConsoleLog "Publishing event ping to group a";
        ConsoleLog "Ping pong timeout for 01, disconnecting client...";
        ConsoleLog "Client 01 disconnected, removing from registry"]
  ∧ (console <$> run loopback_encode None (UWSProvider_new None)
                   [Open [Byte.x01]; ToAll "ping" [VNum 42]; Timeout; Timeout])
    = Ok [].
Proof. split; reflexivity. Qed.

(** Two sweeps without a pong: the connection is closed and unregistered. *)
Example two_sweeps_without_pong :
  ((λ p, (Object_keys (_connections p), ws_closed <$> _app p,
          ws_pings <$> _app p))
     <$> run loopback_encode None (UWSProvider_new None)
           [Open [Byte.x01]; Timeout; Timeout])
  = Ok ([], [true], [["hey"]]).
Proof. by vm_compute. Qed.

(** A pong between the sweeps keeps the connection. *)
Example pong_between_sweeps :
  ((λ p, (Object_keys (_connections p), ws_closed <$> _app p,
          ws_alive <$> _app p, ws_pings <$> _app p))
     <$> run loopback_encode None (UWSProvider_new None)
           [Open [Byte.x01]; Timeout; Pong 0; Timeout; Pong 0; Timeout])
  = Ok (["01"], [false], [false], [["hey"; "hey"; "hey"]])
  ∧ answers (Buffer:=TeckosPacket) 0 true
      [Timeout; Pong 0; Timeout; Pong 0; Timeout] = true.
Proof. split; by vm_compute. Qed.

(** Without a backbone the broadcast of the scenario of C1 reaches both
    connections. *)
Example local_broadcast_reaches_everyone :
  ((λ p, ws_inbox <$> _app p)
     <$> run loopback_encode None (UWSProvider_new None)
           [Open [Byte.x01]; Open [Byte.x02]; ToAll "ping" [VNum 42]])
  = Ok [[ping42]; [ping42]].
Proof. reflexivity. Qed.

(** With a backbone a group broadcast comes back through the pattern
    listener and reaches the members of the group. *)
Example relayed_group_broadcast :
  ((λ p, (_pub p, ws_inbox <$> _app p))
     <$> run loopback_encode (Some with_redis)
           (UWSProvider_new (Some with_redis))
           [Open [Byte.x01]; Open [Byte.x02]; Join "01" "blue";
            To "blue" "news" []; Backbone "g.blue" (event_packet "news" [])])
  = Ok (Some [("g.blue", event_packet "news" [])],
        [[event_packet "news" []]; []]).
Proof. reflexivity. Qed.

(** A frame for a closed connection is answered by a logged error. *)
Example frame_after_close :
  ((λ p, (Object_keys (_connections p), console p, notices p))
     <$> run loopback_encode None (UWSProvider_new None)
           [Open [Byte.x01]; Message 0 ping42; Close 0; Message 0 ping42;
            ToAll "ping" []])
  = Ok ([], [ConsoleError "Got message from unknown connection: 01"],
        [FrameReceived "01" ping42; Disconnected "01"]).
Proof. by vm_compute. Qed.

(** Two equal draws: the second handle replaces the first under the shared
    key, and the broadcast still reaches both connection objects. *)
Example repeated_draw :
  ((λ p, (sock_ws <$> _connections p !! "01", ws_inbox <$> _app p))
     <$> run loopback_encode None (UWSProvider_new None)
           [Open [Byte.x01]; Open [Byte.x01]; ToAll "ping" [VNum 42]])
  = Ok (Some 1, [[ping42]; [ping42]]).
Proof. by vm_compute. Qed.

(** ** Further properties of the provider *)

(** *** Identities *)

Lemma hex_digits_of_byte (b : Byte.byte) :
  is_hex_digit (hex_digit (Byte.to_N b / 16)) = true
  ∧ is_hex_digit (hex_digit (Byte.to_N b mod 16)) = true.
Proof. by destruct b. Qed.

(** The identity [generateUUID] builds from the drawn bytes has two
    characters per byte (32 for the 16 bytes drawn), all of them lower-case
    hexadecimal digits, and two identities are equal only if the draws are. *)
Theorem generateUUID_shape (r1 r2 : list Byte.byte) :
  String.length (generateUUID r1) = 2 * length r1
  ∧ Forall (λ c, is_hex_digit c = true)
           (String.list_ascii_of_string (generateUUID r1))
  ∧ (generateUUID r1 = generateUUID r2 ↔ r1 = r2).
Proof.
  split_and!.
  - unfold generateUUID. induction r1 as [|b r1 IH]; simpl; [done|].
    rewrite IH. lia.
  - unfold generateUUID. induction r1 as [|b r1 IH]; simpl; [constructor|].
    destruct (hex_digits_of_byte b). by repeat constructor.
  - split; [apply generateUUID_inj|by intros ->].
Qed.

(** *** The constructor's choices last *)

Section Lasting.
Context {Buffer : Type}.
Variable encodePacket : TeckosPacket → Buffer.
Variable options : option TeckosOptions.
Implicit Types (p : UWSProvider Buffer) (ev : Event Buffer).
Implicit Types (evs : list (Event Buffer)).

Lemma run_handlers p evs p' :
  run encodePacket options p evs = Ok p' →
  config p' = config p ∧ _handlers p' = _handlers p ++ (evs ≫= registers).
Proof.
  revert p. induction evs as [|ev evs IH]; intros p; simpl.
  { intros [= <-]. by rewrite app_nil_r. }
  destruct (step encodePacket options p ev) as [p1|e] eqn:E; simpl; [|done].
  intros H. destruct (IH _ H) as [-> ->].
  destruct (step_config encodePacket options p ev p1 E) as [-> ->].
  by rewrite app_assoc.
Qed.

Lemma handlers_new : _handlers (UWSProvider_new (Buffer:=Buffer) options) = [].
Proof.
  unfold UWSProvider_new.
  destruct (redisUrl (merge_options options)) as [url|]; [|done].
  destruct (truthy url); [|done]. simpl. by rewrite debug_log_handlers.
Qed.

Lemma pub_new :
  _pub (UWSProvider_new (Buffer:=Buffer) options)
  = if truthy (options ≫= redisUrl) then Some [] else None.
Proof.
  unfold UWSProvider_new. by destruct options as [[[[|c url]|] ? ? ?]|].
Qed.

Lemma ws_close_pub w p : _pub (ws_close w p) = _pub p.
Proof.
  unfold ws_close, on_close. destruct (_app p !! w) as [ws|]; [|done].
  destruct (ws_closed ws); [done|]. simpl.
  destruct (alter ws_end w (_app p) !! w) as [ws'|]; [|done]. simpl.
  destruct (_connections p !! ws_id ws'); [|done]. simpl.
  by rewrite debug_log_pub.
Qed.

Lemma keepAlive_one_pub u p p' : keepAlive_one u p = Ok p' → _pub p' = _pub p.
Proof.
  unfold keepAlive_one. destruct (_connections p !! u) as [sock|]; [|done].
  destruct (_app p !! sock_ws sock) as [ws|]; [|done].
  destruct (ws_alive ws).
  - destruct (ws_closed ws); [done|]. by intros [= <-].
  - intros [= <-]. unfold sock_disconnect.
    by rewrite ws_close_pub, debug_log_pub.
Qed.

Lemma forEach_keepAlive_pub us p p' :
  forEach_keepAlive us p = Ok p' → _pub p' = _pub p.
Proof.
  revert p. induction us as [|u us IH]; intros p; simpl; [by intros [= <-]|].
  destruct (keepAlive_one u p) as [p1|e] eqn:E; simpl; [|done].
  intros H. rewrite (IH _ H). by eapply keepAlive_one_pub.
Qed.

(** Only [toAll] and [to] write to the backbone, one publication each. *)
Lemma step_pub p ev p' :
  step encodePacket options p ev = Ok p' →
  _pub p' = (λ l, l ++ publication encodePacket ev) <$> _pub p.
Proof.
  assert (∀ o : option (list (string * Buffer)), o = (λ l, l ++ []) <$> o)
    as Hid by (intros [l|]; simpl; by rewrite ?app_nil_r).
  destruct ev; simpl; try (intros [= <-]); try apply Hid.
  - rewrite on_open_pub. apply Hid.
  - unfold on_message. destruct (_app p !! w); [|apply Hid].
    destruct (_connections p !! _); apply Hid.
  - unfold on_drain. destruct (_app p !! w); [|apply Hid].
    rewrite debug_log_pub. apply Hid.
  - rewrite ws_close_pub. apply Hid.
  - intros H. rewrite (forEach_keepAlive_pub _ _ _ H). apply Hid.
  - unfold toAll. destruct (_pub p) eqn:E; simpl; [done|].
    by rewrite debug_log_pub.
  - unfold to. destruct (_pub p) eqn:E; simpl; [done|].
    by rewrite debug_log_pub.
  - unfold sock_join. destruct (_connections p !! id); apply Hid.
  - unfold redis_deliver. destruct (_sub p); [|apply Hid].
    case_bool_decide; [apply Hid|].
    destruct (String.prefix "g." channel); [|apply Hid].
    unfold sub_on_pmessage. simpl. rewrite debug_log_pub. apply Hid.
Qed.

Lemma run_pub p evs p' :
  run encodePacket options p evs = Ok p' →
  _pub p' = (λ l, l ++ publications encodePacket evs) <$> _pub p.
Proof.
  revert p. induction evs as [|ev evs IH]; intros p; simpl.
  { intros [= <-]. destruct (_pub p); simpl; by rewrite ?app_nil_r. }
  destruct (step encodePacket options p ev) as [p1|e] eqn:E; simpl; [|done].
  intros H. rewrite (IH _ H), (step_pub _ _ _ E).
  destruct (_pub p); simpl; [|done]. unfold publications. simpl.
  by rewrite app_assoc.
Qed.

End Lasting.

(** *** The two-connection scenario without a backbone *)

Lemma on_open_no_handlers {Buffer} options r (p : UWSProvider Buffer) :
  _handlers p = [] → on_open options r p = open_base options r p.
Proof.
  intros Hh. unfold on_open.
  assert (_handlers (open_base options r p) = []) as -> by done.
  done.
Qed.

(** On a provider built without a backbone, when A and B open with distinct
    draws and the provider then broadcasts ["ping", 42] to ALL, A and B are
    registered under distinct identities and the inbox of each holds exactly
    one buffer, which decodes to [{type: EVENT, data: ["ping", 42]}]. *)
Theorem local_broadcast_scenario {Buffer}
    (encodePacket : TeckosPacket → Buffer)
    (decodePacket : Buffer → option TeckosPacket)
    (options : option TeckosOptions) (rA rB : list Byte.byte) :
  (∀ packet, decodePacket (encodePacket packet) = Some packet) →
  truthy (options ≫= redisUrl) = false →
  rA ≠ rB →
  ∃ p sockA sockB wsA wsB buffer,
    run encodePacket options (UWSProvider_new options)
        [Open rA; Open rB; ToAll "ping" [VNum 42]]
    = Ok p
    ∧ _connections p !! generateUUID rA = Some sockA
    ∧ _connections p !! generateUUID rB = Some sockB
    ∧ sock_id sockA ≠ sock_id sockB
    ∧ _app p !! sock_ws sockA = Some wsA
    ∧ _app p !! sock_ws sockB = Some wsB
    ∧ ws_id wsA = sock_id sockA ∧ ws_id wsB = sock_id sockB
    ∧ ws_inbox wsA = [buffer] ∧ ws_inbox wsB = [buffer]
    ∧ decodePacket buffer
      = Some {| type := EVENT; data := [VStr "ping"; VNum 42] |}.
Proof.
  intros Hrt Hno Hne.
  assert (generateUUID rA ≠ generateUUID rB) as Hid
    by (intros H; by apply Hne, generateUUID_inj).
  set (p0 := UWSProvider_new (Buffer:=Buffer) options).
  assert (_handlers p0 = []) as Hh0 by apply handlers_new.
  assert (_pub p0 = None) as Hpub0 by (unfold p0; by rewrite pub_new, Hno).
  assert (_app p0 = []) as Happ0.
  { unfold p0, UWSProvider_new.
    destruct (redisUrl (merge_options options)) as [url|]; [|done].
    destruct (truthy url); [|done]. simpl. by rewrite debug_log_app. }
  assert (_connections p0 = ∅) as Hcon0.
  { unfold p0, UWSProvider_new.
    destruct (redisUrl (merge_options options)) as [url|]; [|done].
    destruct (truthy url); [|done]. simpl. by rewrite debug_log_connections. }
  simpl. fold p0. rewrite (on_open_no_handlers options rA p0 Hh0).
  set (p1 := open_base options rA p0).
  assert (_handlers p1 = []) as Hh1 by done.
  rewrite (on_open_no_handlers options rB p1 Hh1).
  set (p2 := open_base options rB p1).
  set (buffer := encodePacket (event_packet "ping" [VNum 42])).
  set (wsA := mkWS (Buffer:=Buffer) (generateUUID rA) true {["a"]} [] [] false).
  set (wsB := mkWS (Buffer:=Buffer) (generateUUID rB) true {["a"]} [] [] false).
  assert (_app p2 = [wsA; wsB]) as Happ
    by (unfold p2, p1, open_base; simpl; by rewrite Happ0).
  assert (_pub p2 = None) as Hpub2 by done.
  exists (toAll encodePacket "ping" [VNum 42] p2).
  exists (UWSSocket_new (generateUUID rA) 0 (options ≫= debug)).
  exists (UWSSocket_new (generateUUID rB) 1 (options ≫= debug)).
  exists (ws_deliver "a" buffer wsA), (ws_deliver "a" buffer wsB), buffer.
  assert (_connections (toAll encodePacket "ping" [VNum 42] p2)
          = _connections p2) as -> by apply toAll_fields.
  assert (_app (toAll encodePacket "ping" [VNum 42] p2)
          = app_publish "a" buffer (_app p2)) as ->.
  { unfold toAll. rewrite Hpub2. simpl. by rewrite debug_log_app. }
  assert (_connections p2
          = <[generateUUID rB :=
                UWSSocket_new (generateUUID rB) 1 (options ≫= debug)]>
              (<[generateUUID rA :=
                   UWSSocket_new (generateUUID rA) 0 (options ≫= debug)]> ∅))
    as ->.
  { unfold p2, p1, open_base. simpl. by rewrite Happ0, Hcon0. }
  rewrite Happ. split_and!; try done.
  - by rewrite lookup_insert_ne, lookup_insert_eq.
  - by rewrite lookup_insert_eq.
  - apply Hrt.
Qed.

(** The scenario on a provider built without options, with a codec that
    round-trips. *)
Lemma local_broadcast_scenario_witness :
  ∃ p sockA sockB wsA wsB buffer,
    run loopback_encode None (UWSProvider_new None)
        [Open [Byte.x01]; Open [Byte.x02]; ToAll "ping" [VNum 42]]
    = Ok p
    ∧ _connections p !! generateUUID [Byte.x01] = Some sockA
    ∧ _connections p !! generateUUID [Byte.x02] = Some sockB
    ∧ sock_id sockA ≠ sock_id sockB
    ∧ _app p !! sock_ws sockA = Some wsA
    ∧ _app p !! sock_ws sockB = Some wsB
    ∧ ws_id wsA = sock_id sockA ∧ ws_id wsB = sock_id sockB
    ∧ ws_inbox wsA = [buffer] ∧ ws_inbox wsB = [buffer]
    ∧ loopback_decode buffer
      = Some {| type := EVENT; data := [VStr "ping"; VNum 42] |}.
Proof.
  apply (local_broadcast_scenario loopback_encode loopback_decode None
           [Byte.x01] [Byte.x02]).
  - reflexivity.
  - reflexivity.
  - discriminate.
Defined.

(** What the constructor stores is what every later state holds: the options
    are the merged ones, with a [pingInterval] of 0 or none replaced by
    25000, the [pingTimeout] taken from the caller's [pingInterval] (5000
    when that is 0 or missing), the debug flag as given and an empty
    [redisUrl] dropped; and the backbone clients exist exactly when a
    non-empty [redisUrl] was given. *)
Theorem constructor_choices_last {Buffer} (encodePacket : TeckosPacket → Buffer)
    (options : option TeckosOptions) (evs : list (Event Buffer)) :
  ∃ p, run encodePacket options (UWSProvider_new options) evs = Ok p
    ∧ _options p = merge_options options
    ∧ pingInterval (_options p)
      = Some (match options ≫= pingInterval with
              | Some n => if (n =? 0)%Z then 25000%Z else n
              | None => 25000%Z
              end)
    ∧ pingTimeout (_options p)
      = Some (match options ≫= pingInterval with
              | Some n => if (n =? 0)%Z then 5000%Z else n
              | None => 5000%Z
              end)
    ∧ debug (_options p) = options ≫= debug
    ∧ redisUrl (_options p)
      = match options ≫= redisUrl with
        | Some (String c url) => Some (String c url)
        | _ => None
        end
    ∧ (is_Some (_pub p) ↔ ∃ c url, options ≫= redisUrl = Some (String c url))
    ∧ (is_Some (_sub p) ↔ is_Some (_pub p)).
Proof.
  destruct (run_new_total encodePacket options evs) as (p & Hr & _ & _).
  exists p. split; [done|].
  pose proof (run_config encodePacket options _ evs p Hr) as Hc.
  rewrite config_new in Hc. unfold config, has_backbone in Hc.
  injection Hc as Ho Hs Hb.
  rewrite Ho, Hs. split; [done|].
  split; [by destruct options as [[url [[| |]|] pt dbg]|]|].
  split; [by destruct options as [[url [[| |]|] pt dbg]|]|].
  split; [by destruct options|].
  split; [by destruct options as [[[[|c u]|] pi pt dbg]|]|].
  assert (truthy (options ≫= redisUrl) = true
          ↔ ∃ c url, options ≫= redisUrl = Some (String c url)) as Hu.
  { destruct (options ≫= redisUrl) as [[|c u]|]; simpl;
      (split; [intros ?|intros (? & ? & ?)]; simplify_eq; eauto). }
  rewrite <- Hu, <- Hb. split.
  - destruct (_pub p); simpl; (split; [intros [? ?]|intros ?]);
      simplify_eq; eauto.
  - destruct (_pub p); simpl; split; intros [? ?]; simplify_eq; eauto.
Qed.

(** The handlers the provider holds after a run are those registered with
    [onConnection], in the order of registration: no other event adds, drops
    or reorders a handler. *)
Theorem handlers_in_registration_order {Buffer}
    (encodePacket : TeckosPacket → Buffer) (options : option TeckosOptions)
    (evs : list (Event Buffer)) :
  ∃ p, run encodePacket options (UWSProvider_new options) evs = Ok p
    ∧ _handlers p = evs ≫= registers.
Proof.
  destruct (run_new_total encodePacket options evs) as (p & Hr & _ & _).
  exists p. split; [done|].
  destruct (run_handlers encodePacket options _ evs p Hr) as [_ ->].
  by rewrite handlers_new.
Qed.

(** With a backbone, what was published on it after a run is exactly the
    sequence of broadcasts of the run, each on its channel (['a'] for ALL,
    ['g.'] followed by the group name for a group): neither the inbound relay
    nor any other event publishes. Without a backbone nothing is published. *)
Theorem backbone_publications {Buffer} (encodePacket : TeckosPacket → Buffer)
    (options : option TeckosOptions) (evs : list (Event Buffer)) :
  ∃ p, run encodePacket options (UWSProvider_new options) evs = Ok p
    ∧ _pub p = if truthy (options ≫= redisUrl)
               then Some (publications encodePacket evs) else None.
Proof.
  destruct (run_new_total encodePacket options evs) as (p & Hr & _ & _).
  exists p. split; [done|].
  rewrite (run_pub encodePacket options _ evs p Hr), pub_new.
  by destruct (truthy (options ≫= redisUrl)).
Qed.

(** *** Group broadcasts through the backbone *)

Lemma substring_all (s : string) : String.substring 0 (String.length s) s = s.
Proof. induction s as [|c s IH]; simpl; [done|]. by rewrite IH. Qed.

(** Taking the prefix off a group channel gives back the group name. *)
Lemma substr_group_channel (group : string) : substr 2 ("g." +:+ group) = group.
Proof.
  unfold substr. simpl. rewrite Nat.sub_0_r. apply substring_all.
Qed.

(** With a backbone, a broadcast to a group other than ['a'] is published
    once on the channel ['g.'] followed by the group name and delivered to
    nobody directly; when that publication comes back through the pattern
    listener, the listener takes the prefix off again and every registered
    connection that joined the group receives the packet exactly once, and
    no other registered connection receives it. *)
Theorem group_broadcast_round_trip {Buffer}
    (encodePacket : TeckosPacket → Buffer) (options : option TeckosOptions)
    (evs : list (Event Buffer)) (group event : string) (args : list Value) :
  truthy (options ≫= redisUrl) = true →
  group ≠ "a" →
  ∃ p, run encodePacket options (UWSProvider_new options) evs = Ok p
    ∧ substr 2 ("g." +:+ group) = group
    ∧ _pub (to encodePacket group event args p)
      = Some (publications encodePacket evs
                ++ [("g." +:+ group, encodePacket (event_packet event args))])
    ∧ _app (to encodePacket group event args p) = _app p
    ∧ ∀ id sock ws,
        _connections p !! id = Some sock →
        _app p !! sock_ws sock = Some ws →
        ∃ ws',
          _app (redis_deliver ("g." +:+ group)
                  (encodePacket (event_packet event args))
                  (to encodePacket group event args p))
            !! sock_ws sock = Some ws'
          ∧ ws_inbox ws'
            = if bool_decide (group ∈ sock_groups sock)
              then ws_inbox ws ++ [encodePacket (event_packet event args)]
              else ws_inbox ws.
Proof.
  intros Hurl Hg.
  destruct (run_new_total encodePacket options evs) as (p & Hr & Hwf & _).
  exists p. split; [done|]. split; [apply substr_group_channel|].
  pose proof (run_pub encodePacket options _ evs p Hr) as Hpub.
  rewrite pub_new, Hurl in Hpub. simpl in Hpub.
  pose proof (run_config encodePacket options _ evs p Hr) as Hc.
  rewrite config_new, Hurl in Hc. unfold config in Hc.
  injection Hc as _ Hsub _.
  unfold to. rewrite Hpub. simpl. split; [done|]. split; [done|].
  intros id sock ws Hreg Hw.
  assert (String.prefix "g." ("g." +:+ group) = true) as Hpre
    by (by destruct group).
  assert (bool_decide ("g." +:+ group = "a") = false) as Hne
    by (by apply bool_decide_eq_false_2).
  unfold redis_deliver. cbn [_sub set_pub]. rewrite Hsub, Hne, Hpre.
  unfold sub_on_pmessage. rewrite substr_group_channel.
  cbn [_app set_app]. rewrite debug_log_app. cbn [_app set_pub].
  destruct Hwf as [H1 _].
  destruct (H1 _ _ Hreg) as (_ & ws0 & Hw0 & _ & _ & Htop).
  assert (ws0 = ws) as -> by congruence.
  destruct (app_publish_lookup group (encodePacket (event_packet event args))
              (_app p) _ _ Hw) as (ws' & Hw' & Hin).
  exists ws'. split; [done|]. rewrite Hin, Htop.
  rewrite (bool_decide_ext (group ∈ {["a"]} ∪ sock_groups sock)
             (group ∈ sock_groups sock)); [done|].
  rewrite elem_of_union, elem_of_singleton.
  split; [by intros [?|?]|by right].
Qed.

(** A run with a backbone on which two connections joined different
    groups. *)
Lemma group_broadcast_round_trip_witness :
  ∃ p, run loopback_encode (Some with_redis) (UWSProvider_new (Some with_redis))
         [Open [Byte.x01]; Open [Byte.x02]; Join "01" "blue"; Join "02" "red"]
       = Ok p
    ∧ substr 2 ("g." +:+ "blue") = "blue"
    ∧ _pub (to loopback_encode "blue" "news" [] p)
      = Some (publications loopback_encode
                [Open [Byte.x01]; Open [Byte.x02]; Join "01" "blue";
                 Join "02" "red"]
                ++ [("g." +:+ "blue", loopback_encode (event_packet "news" []))])
    ∧ _app (to loopback_encode "blue" "news" [] p) = _app p
    ∧ ∀ id sock ws,
        _connections p !! id = Some sock →
        _app p !! sock_ws sock = Some ws →
        ∃ ws',
          _app (redis_deliver ("g." +:+ "blue")
                  (loopback_encode (event_packet "news" []))
                  (to loopback_encode "blue" "news" [] p))
            !! sock_ws sock = Some ws'
          ∧ ws_inbox ws'
            = if bool_decide ("blue" ∈ sock_groups sock)
              then ws_inbox ws ++ [loopback_encode (event_packet "news" [])]
              else ws_inbox ws.
Proof.
  apply (group_broadcast_round_trip loopback_encode (Some with_redis)
           [Open [Byte.x01]; Open [Byte.x02]; Join "01" "blue"; Join "02" "red"]
           "blue" "news" []).
  - reflexivity.
  - discriminate.
Defined.

(** *** Connection objects across events *)

Section Objects.
Context {Buffer : Type}.
Variable encodePacket : TeckosPacket → Buffer.
Variable options : option TeckosOptions.
Implicit Types (p : UWSProvider Buffer) (ws : WebSocket Buffer).
Implicit Types (sock : UWSSocket) (ev : Event Buffer).
Implicit Types (evs : list (Event Buffer)).

Lemma maybe_publish_object o (app : list (WebSocket Buffer)) w ws :
  app !! w = Some ws →
  ∃ ws', maybe_publish o app !! w = Some ws'
         ∧ (ws' = ws ∨ ∃ topic message, ws' = ws_deliver topic message ws).
Proof.
  intros Hw. destruct o as [[topic message]|]; simpl.
  - unfold app_publish. rewrite list_lookup_fmap, Hw. simpl.
    eexists. split; [done|]. right. eauto.
  - exists ws. split; [done|by left].
Qed.

(** Each event changes a connection object in at most one way, told by the
    kind of the event. *)
Lemma step_object p ev w ws :
  wf p → _app p !! w = Some ws →
  ∃ p' ws', step encodePacket options p ev = Ok p'
            ∧ _app p' !! w = Some ws' ∧ object_change ev ws ws'.
Proof.
  intros Hwf Hw. pose proof Hwf as [H1 _].
  destruct ev as [r|v|v b|v|v| |h|e a|g e a|id g|c m]; simpl.
  - eexists _, ws. split; [done|]. split; [|done].
    by apply on_open_others.
  - destruct (decide (v = w)) as [->|Hne].
    + eexists _, _. split; [done|]. split.
      { simpl. by rewrite list_lookup_alter_eq, Hw. }
      by right.
    + eexists _, ws. split; [done|]. split; [|by left].
      simpl. by rewrite list_lookup_alter_ne.
  - eexists _, ws. split; [done|]. split; [|done].
    by rewrite on_message_app.
  - eexists _, ws. split; [done|]. split; [|done].
    by rewrite on_drain_app.
  - destruct (_app p !! v) as [wsv|] eqn:Hv;
      [|eexists _, ws; rewrite ws_close_noop by (by rewrite Hv);
        split; [done|]; split; [done|by left]].
    destruct (ws_closed wsv) eqn:Hclv;
      [eexists _, ws;
       rewrite ws_close_noop by (rewrite Hv; by intros ? [= <-]);
       split; [done|]; split; [done|by left]|].
    destruct (decide (v = w)) as [->|Hne].
    + eexists _, (ws_end ws). split; [done|].
      assert (wsv = ws) as -> by congruence.
      rewrite (ws_close_app w p ws), list_lookup_alter_eq, Hw by done.
      split; [done|by right].
    + eexists _, ws. split; [done|].
      rewrite (ws_close_app v p wsv), list_lookup_alter_ne by done.
      split; [done|by left].
  - destruct (keepAliveSockets_spec p Hwf) as (p' & Hrun & _ & _ & Ha & Hb & _).
    exists p'.
    assert ((∃ sock, _connections p !! ws_id ws = Some sock
                     ∧ sock_ws sock = w)
            ∨ ∀ id sock, _connections p !! id = Some sock → sock_ws sock ≠ w)
      as [(sock & Hs & <-)|Hun].
    { destruct (_connections p !! ws_id ws) as [sock|] eqn:Hs.
      - destruct (decide (sock_ws sock = w)) as [Heq|Hne]; [left; eauto|].
        right. intros id sock' Hs' Heq.
        destruct (H1 _ _ Hs') as (_ & ws1 & Hw1 & Hid1 & _).
        assert (ws1 = ws) as -> by congruence. congruence.
      - right. intros id sock' Hs' Heq.
        destruct (H1 _ _ Hs') as (_ & ws1 & Hw1 & Hid1 & _).
        assert (ws1 = ws) as -> by congruence. congruence. }
    + specialize (Ha _ _ _ Hs Hw).
      destruct (ws_alive ws); destruct Ha as [_ Ha]; eexists;
        (split; [done|]); (split; [exact Ha|]); auto.
    + exists ws. split; [done|]. split; [by rewrite Hb|by left].
  - eexists _, ws. by split.
  - destruct (toAll_fields encodePacket e a p) as (_ & o & Ho).
    destruct (maybe_publish_object o _ _ _ Hw) as (ws' & Hw' & Hch).
    eexists _, ws'. split; [done|]. split; [by rewrite Ho|done].
  - destruct (to_fields encodePacket g e a p) as (_ & o & Ho).
    destruct (maybe_publish_object o _ _ _ Hw) as (ws' & Hw' & Hch).
    eexists _, ws'. split; [done|]. split; [by rewrite Ho|done].
  - destruct (_connections p !! id) as [sock|] eqn:Hs.
    + destruct (decide (sock_ws sock = w)) as [<-|Hne].
      * eexists _, _. split; [done|].
        rewrite sock_join_app, Hs, list_lookup_alter_eq, Hw.
        split; [done|by right].
      * eexists _, ws. split; [done|].
        rewrite sock_join_app, Hs, list_lookup_alter_ne by done.
        split; [done|by left].
    + eexists _, ws. split; [done|]. rewrite sock_join_app, Hs.
      split; [done|by left].
  - destruct (redis_deliver_fields c m p) as (_ & o & Ho).
    destruct (maybe_publish_object o _ _ _ Hw) as (ws' & Hw' & Hch).
    eexists _, ws'. split; [done|]. split; [by rewrite Ho|done].
Qed.

(** A connection object of the state after an event was there before, or is
    the one an [Open] has just brought, as the handlers of [open] left it. *)
Lemma step_lookup_inv p ev p' w ws' :
  wf p → step encodePacket options p ev = Ok p' → _app p' !! w = Some ws' →
  (∃ ws, _app p !! w = Some ws)
  ∨ (∃ r, ev = Open r ∧ w = length (_app p)
          ∧ own_object p' (generateUUID r) w).
Proof.
  intros Hwf Hs Hw'.
  destruct (_app p !! w) as [ws|] eqn:Hw; [left; eauto|right].
  destruct (step_total encodePacket options p ev Hwf) as (q & Hq & _ & Hids).
  assert (q = p') as -> by congruence.
  assert (length (_app p') = length (_app p) + length (opened [ev])) as Hlen.
  { unfold ids in Hids.
    rewrite <- (length_fmap ws_id (_app p')), Hids, length_app.
    by rewrite length_fmap. }
  pose proof (lookup_lt_Some _ _ _ Hw') as Hlt. apply lookup_ge_None in Hw.
  destruct ev as [r| | | | | | | | | |];
    try (unfold opened in Hlen; simpl in Hlen; lia).
  exists r. split; [done|]. unfold opened in Hlen. simpl in Hlen.
  assert (w = length (_app p)) as -> by lia. split; [done|].
  simpl in Hs. injection Hs as <-. apply on_open_own.
Qed.

End Objects.

(** *** Invariants of whole runs *)

Section Whole.
Context {Buffer : Type}.
Variable encodePacket : TeckosPacket → Buffer.
Variable options : option TeckosOptions.
Implicit Types (p : UWSProvider Buffer) (ws : WebSocket Buffer).
Implicit Types (sock : UWSSocket) (ev : Event Buffer).
Implicit Types (evs : list (Event Buffer)).

Lemma run_invariant (I : UWSProvider Buffer → Prop) p evs p' :
  (∀ q ev q', wf q → I q → step encodePacket options q ev = Ok q' → I q') →
  wf p → I p → run encodePacket options p evs = Ok p' → wf p' ∧ I p'.
Proof.
  intros Hstep. revert p. induction evs as [|ev evs IH]; intros p Hwf HI; simpl.
  { by intros [= <-]. }
  destruct (step_total encodePacket options p ev Hwf) as (p1 & Hs & Hwf1 & _).
  rewrite Hs. simpl. apply IH; [done|]. by apply (Hstep p ev p1).
Qed.

Lemma run_invariant_distinct (I : UWSProvider Buffer → Prop) p evs p' :
  (∀ q ev q', wf q → NoDup (ids q') → I q →
              step encodePacket options q ev = Ok q' → I q') →
  wf p → NoDup (ids p ++ opened evs) → I p →
  run encodePacket options p evs = Ok p' → wf p' ∧ I p' ∧ NoDup (ids p').
Proof.
  intros Hstep. revert p.
  induction evs as [|ev evs IH]; intros p Hwf Hnd HI; simpl.
  { intros [= <-]. unfold opened in Hnd. simpl in Hnd.
    by rewrite app_nil_r in Hnd. }
  destruct (step_total encodePacket options p ev Hwf) as (p1 & Hs & Hwf1 & Hid).
  rewrite Hs. simpl.
  rewrite (opened_cons ev evs), app_assoc, <- Hid in Hnd.
  apply IH; [done..|]. apply (Hstep p ev p1); try done.
  by apply NoDup_app in Hnd as [? _].
Qed.

Lemma object_change_open ev ws ws' :
  object_change ev ws ws' → ws_closed ws' = false →
  ws_closed ws = false ∧ ws_topics ws ⊆ ws_topics ws'.
Proof.
  assert (∀ topic (message : Buffer),
            ws_closed (ws_deliver topic message ws) = ws_closed ws
            ∧ ws_topics (ws_deliver topic message ws) = ws_topics ws) as Hd.
  { intros. unfold ws_deliver. by case_bool_decide. }
  destruct ev; simpl; intros H Hcl;
    repeat match goal with
           | H : _ ∨ _ |- _ => destruct H as [H|H]
           | H : ∃ _, _ |- _ => destruct H as [? H]
           end; subst; simpl in *; try done;
    try (split; [done|]; apply union_subseteq_r);
    match goal with
    | Hcl : ws_closed (ws_deliver ?t ?m ws) = false |- _ =>
        destruct (Hd t m) as [E1 E2]; rewrite E1 in Hcl; by rewrite E2
    end.
Qed.

Lemma step_all_subscribed p ev p' :
  wf p → all_subscribed p → step encodePacket options p ev = Ok p' →
  all_subscribed p'.
Proof.
  intros Hwf Hall Hs w ws' Hw' Hcl'.
  destruct (step_lookup_inv encodePacket options p ev p' w ws' Hwf Hs Hw')
    as [[ws Hw]|(r & _ & _ & Hown)].
  2:{ destruct Hown as (ws & Hw & _ & _ & _ & [(_ & Ha & _)|[Hcl _]]);
        assert (ws = ws') as -> by congruence; [done|congruence]. }
  destruct (step_object encodePacket options p ev w ws Hwf Hw)
    as (q & ws1 & Hq & Hw1 & Hch).
  assert (q = p') as -> by congruence.
  assert (ws1 = ws') as -> by congruence.
  destruct (object_change_open ev ws ws' Hch Hcl') as [Hcl Hsub].
  apply Hsub. by apply (Hall w).
Qed.

Lemma step_all_registered p ev p' :
  wf p → NoDup (ids p') → all_registered p →
  step encodePacket options p ev = Ok p' → all_registered p'.
Proof.
  intros Hwf Hnd Hall Hs w ws' Hw' Hcl'.
  destruct (step_lookup_inv encodePacket options p ev p' w ws' Hwf Hs Hw')
    as [[ws Hw]|(r & -> & -> & Hown)].
  - destruct (step_cell encodePacket options p ev w ws Hwf Hw)
      as (q & ws1 & Hq & Hw1 & Hid1 & Hc1 & _).
    assert (q = p') as -> by congruence.
    assert (ws1 = ws') as -> by congruence.
    destruct (ws_closed ws) eqn:Hcl;
      [destruct (Hc1 eq_refl) as [? _]; congruence|].
    destruct (Hall w ws Hw Hcl) as (sock & Hreg & Hsw).
    destruct (step_registered encodePacket options p ev p' _ sock Hwf Hnd Hs Hreg)
      as [(sock' & Hreg' & Hsw')|(_ & ws2 & Hw2 & Hcl2)].
    + exists sock'. rewrite Hid1. split; [done|]. congruence.
    + rewrite Hsw in Hw2. congruence.
  - destruct Hown
      as (ws & Hw & Hid & _ & _ & [(_ & _ & sock & Hreg & Hsw & _)|[Hcl _]]);
      assert (ws = ws') as -> by congruence; [|congruence].
    exists sock. by rewrite Hid.
Qed.

Lemma ws_close_notices w p ws :
  _app p !! w = Some ws → ws_closed ws = false →
  notices (ws_close w p)
  = notices p ++ match _connections p !! ws_id ws with
                 | Some sock => [Disconnected (sock_id sock)]
                 | None => []
                 end.
Proof.
  intros Hw Hcl. unfold ws_close, on_close. rewrite Hw, Hcl. simpl.
  rewrite list_lookup_alter_eq, Hw. simpl.
  destruct (_connections p !! ws_id ws); simpl.
  - by rewrite debug_log_notices.
  - by rewrite app_nil_r.
Qed.


Lemma sweeps_cons ev evs :
  sweeps (ev :: evs) = (if is_sweep ev then 1 else 0) + sweeps evs.
Proof. unfold sweeps. simpl. by destruct (is_sweep ev). Qed.

Lemma run_pings p evs p' n :
  wf p →
  (∀ w ws, _app p !! w = Some ws →
     ∃ k, k ≤ n ∧ ws_pings ws = replicate k "hey") →
  run encodePacket options p evs = Ok p' →
  ∀ w ws, _app p' !! w = Some ws →
    ∃ k, k ≤ n + sweeps evs ∧ ws_pings ws = replicate k "hey".
Proof.
  revert p n. induction evs as [|ev evs IH]; intros p n Hwf Hp; simpl.
  { intros [= <-] w ws Hw. destruct (Hp w ws Hw) as (k & ? & ?).
    exists k. split; [unfold sweeps; simpl; lia|done]. }
  destruct (step_total encodePacket options p ev Hwf) as (p1 & Hs & Hwf1 & _).
  rewrite Hs. simpl. intros Hr.
  rewrite sweeps_cons.
  replace (n + ((if is_sweep ev then 1 else 0) + sweeps evs))
    with ((n + (if is_sweep ev then 1 else 0)) + sweeps evs) by lia.
  apply (IH p1); [done| |done].
  intros w ws1 Hw1.
  destruct (step_lookup_inv encodePacket options p ev p1 w ws1 Hwf Hs Hw1)
    as [[ws Hw]|(r & _ & _ & ws & Hw & _ & Hpings & _)].
  2:{ assert (ws = ws1) as -> by congruence.
      exists 0. split; [lia|by rewrite Hpings]. }
  destruct (step_object encodePacket options p ev w ws Hwf Hw)
    as (q & ws2 & Hq & Hw2 & Hch).
  assert (q = p1) as -> by congruence.
  assert (ws2 = ws1) as -> by congruence.
  destruct (Hp w ws Hw) as (k & Hk & Hpk).
  assert (∀ topic (message : Buffer),
            ws_pings (ws_deliver topic message ws) = ws_pings ws) as Hd.
  { intros. unfold ws_deliver. by case_bool_decide. }
  destruct ev; simpl in Hch;
    repeat match goal with
           | H : _ ∨ _ |- _ => destruct H as [H|H]
           | H : ∃ _, _ |- _ => destruct H as [? H]
           end; subst; simpl; rewrite ?Hd;
    try (exists k; split; [lia|done]).
  exists (S k). split; [lia|]. rewrite Hpk. simpl.
  by rewrite replicate_cons_app.
Qed.

End Whole.

(** *** Local broadcasts to ALL *)

Lemma run_toAll {Buffer} (encodePacket : TeckosPacket → Buffer)
    (options : option TeckosOptions) (p : UWSProvider Buffer)
    (casts : list (string * list Value)) :
  _pub p = None →
  (∀ w ws, _app p !! w = Some ws → ws_closed ws = true → ws_topics ws = ∅) →
  all_subscribed p →
  ∃ p', run encodePacket options p ((λ c, ToAll c.1 c.2) <$> casts) = Ok p'
    ∧ ∀ w ws, _app p !! w = Some ws →
        ∃ ws', _app p' !! w = Some ws'
          ∧ ws_inbox ws'
            = if ws_closed ws then ws_inbox ws
              else ws_inbox ws
                   ++ ((λ c, encodePacket (event_packet c.1 c.2)) <$> casts).
Proof.
  revert p. induction casts as [|[event args] casts IH]; intros p Hpub Hcl Hall.
  { exists p. split; [done|]. intros w ws Hw. exists ws. split; [done|].
    simpl. rewrite app_nil_r. by destruct (ws_closed ws). }
  set (buffer := encodePacket (event_packet event args)).
  assert (_app (toAll encodePacket event args p)
          = app_publish "a" buffer (_app p)) as Happ.
  { unfold toAll. rewrite Hpub. simpl. by rewrite debug_log_app. }
  assert (_pub (toAll encodePacket event args p) = None) as Hpub1.
  { unfold toAll. rewrite Hpub. simpl. by rewrite debug_log_pub. }
  assert (∀ w ws1, _app (toAll encodePacket event args p) !! w = Some ws1 →
            ∃ ws, _app p !! w = Some ws ∧ ws1 = ws_deliver "a" buffer ws)
    as Hinv.
  { intros w ws1. rewrite Happ. unfold app_publish. rewrite list_lookup_fmap.
    destruct (_app p !! w) as [ws|]; simpl; [|done]. intros [= <-]. eauto. }
  assert (∀ ws, ws_closed (ws_deliver "a" buffer ws) = ws_closed ws
                ∧ ws_topics (ws_deliver "a" buffer ws) = ws_topics ws) as Hd.
  { intros. unfold ws_deliver. by case_bool_decide. }
  destruct (IH (toAll encodePacket event args p)) as (p' & Hr & Hin).
  - done.
  - intros w ws1 Hw1. destruct (Hinv w ws1 Hw1) as (ws & Hw & ->).
    destruct (Hd ws) as [-> ->]. by apply (Hcl w).
  - intros w ws1 Hw1. destruct (Hinv w ws1 Hw1) as (ws & Hw & ->).
    destruct (Hd ws) as [-> ->]. by apply (Hall w).
  - exists p'. split; [done|]. intros w ws Hw.
    assert (_app (toAll encodePacket event args p) !! w
            = Some (ws_deliver "a" buffer ws)) as Hw1.
    { rewrite Happ. unfold app_publish. by rewrite list_lookup_fmap, Hw. }
    destruct (Hin _ _ Hw1) as (ws' & Hw' & Hin').
    exists ws'. split; [done|]. rewrite Hin'.
    destruct (Hd ws) as [-> _]. unfold ws_deliver.
    destruct (ws_closed ws) eqn:E.
    + rewrite (Hcl w ws Hw E). by rewrite bool_decide_eq_false_2.
    + rewrite bool_decide_eq_true_2 by (by apply (Hall w)). simpl.
      by rewrite <- app_assoc.
Qed.

(** Without a backbone, in any state a run reaches, a series of broadcasts to
    ALL arrives at every open connection, registered or not, in the order of
    the calls and each packet once; a closed connection receives none of
    them. *)
Theorem broadcasts_to_all_arrive_in_order {Buffer}
    (encodePacket : TeckosPacket → Buffer) (options : option TeckosOptions)
    (evs : list (Event Buffer)) (casts : list (string * list Value)) :
  truthy (options ≫= redisUrl) = false →
  ∃ p p',
    run encodePacket options (UWSProvider_new options) evs = Ok p
    ∧ run encodePacket options p ((λ c, ToAll c.1 c.2) <$> casts) = Ok p'
    ∧ ∀ w ws, _app p !! w = Some ws →
        ∃ ws', _app p' !! w = Some ws'
          ∧ ws_inbox ws'
            = if ws_closed ws then ws_inbox ws
              else ws_inbox ws
                   ++ ((λ c, encodePacket (event_packet c.1 c.2)) <$> casts).
Proof.
  intros Hno.
  destruct (run_new_total encodePacket options evs) as (p & Hr & Hwf & _).
  assert (all_subscribed p) as Hall.
  { eapply (run_invariant encodePacket options all_subscribed);
      [|apply wf_new| |exact Hr].
    - intros q ev q'. apply step_all_subscribed.
    - intros w ws Hw. unfold UWSProvider_new in Hw.
      destruct (redisUrl (merge_options options)) as [url|]; [|done].
      destruct (truthy url); [|done]. simpl in Hw.
      by rewrite debug_log_app in Hw. }
  destruct (run_toAll encodePacket options p casts) as (p' & Hr' & Hin);
    [by eapply run_no_backbone|by destruct Hwf|done|].
  by exists p, p'.
Qed.

(** Two broadcasts after one connection closed and another stayed. *)
Lemma broadcasts_to_all_arrive_in_order_witness :
  ∃ p p',
    run loopback_encode None (UWSProvider_new None)
        [Open [Byte.x01]; Open [Byte.x02]; Close 0] = Ok p
    ∧ run loopback_encode None p
          ((λ c, ToAll c.1 c.2) <$> [("ping", [VNum 42]); ("pong", [])])
      = Ok p'
    ∧ ∀ w ws, _app p !! w = Some ws →
        ∃ ws', _app p' !! w = Some ws'
          ∧ ws_inbox ws'
            = if ws_closed ws then ws_inbox ws
              else ws_inbox ws
                   ++ ((λ c, loopback_encode (event_packet c.1 c.2))
                         <$> [("ping", [VNum 42]); ("pong", [])]).
Proof.
  apply (broadcasts_to_all_arrive_in_order loopback_encode None
           [Open [Byte.x01]; Open [Byte.x02]; Close 0]
           [("ping", [VNum 42]); ("pong", [])]).
  reflexivity.
Defined.

(** *** The registry and the open connections *)

Lemma all_registered_new {Buffer} (options : option TeckosOptions) :
  all_registered (UWSProvider_new (Buffer:=Buffer) options).
Proof.
  intros w ws Hw. unfold UWSProvider_new in Hw.
  destruct (redisUrl (merge_options options)) as [url|]; [|done].
  destruct (truthy url); [|done]. simpl in Hw.
  by rewrite debug_log_app in Hw.
Qed.

Lemma run_new_registered {Buffer} (encodePacket : TeckosPacket → Buffer)
    (options : option TeckosOptions) (evs : list (Event Buffer)) :
  NoDup (draws evs) →
  ∃ p, run encodePacket options (UWSProvider_new options) evs = Ok p
    ∧ wf p ∧ all_registered p ∧ NoDup (ids p).
Proof.
  intros Hnd.
  destruct (run_new_total encodePacket options evs) as (p & Hr & _ & _).
  exists p. split; [done|].
  eapply (run_invariant_distinct encodePacket options all_registered);
    [|apply wf_new| |apply all_registered_new|exact Hr].
  - intros q ev q'. apply step_all_registered.
  - rewrite ids_new. by apply NoDup_opened.
Qed.

(** When no draw is repeated, the registry holds exactly the open
    connections: a connection object is open if and only if the registry has,
    under the identity of the object, the handle of that very object. *)
Theorem registry_is_the_open_connections {Buffer}
    (encodePacket : TeckosPacket → Buffer) (options : option TeckosOptions)
    (evs : list (Event Buffer)) :
  NoDup (draws evs) →
  ∃ p, run encodePacket options (UWSProvider_new options) evs = Ok p
    ∧ ∀ w ws, _app p !! w = Some ws →
        (ws_closed ws = false
         ↔ ∃ sock, _connections p !! ws_id ws = Some sock ∧ sock_ws sock = w).
Proof.
  intros Hnd.
  destruct (run_new_registered encodePacket options evs Hnd)
    as (p & Hr & Hwf & Hall & _).
  exists p. split; [done|]. intros w ws Hw. split; [by apply Hall|].
  intros (sock & Hreg & <-). destruct Hwf as [H1 _].
  destruct (H1 _ _ Hreg) as (_ & ws0 & Hw0 & _ & Hcl & _). congruence.
Qed.

(** A run with distinct draws in which one of three connections closes on
    its own and another one is dropped by the heartbeat. *)
Lemma registry_is_the_open_connections_witness :
  ∃ p, run loopback_encode None (UWSProvider_new None)
         [Open [Byte.x01]; Open [Byte.x02]; Close 0; Timeout;
          Open [Byte.x03]; Pong 2; Timeout] = Ok p
    ∧ ∀ w ws, _app p !! w = Some ws →
        (ws_closed ws = false
         ↔ ∃ sock, _connections p !! ws_id ws = Some sock ∧ sock_ws sock = w).
Proof.
  apply (registry_is_the_open_connections loopback_encode None
           [Open [Byte.x01]; Open [Byte.x02]; Close 0; Timeout;
            Open [Byte.x03]; Pong 2; Timeout]).
  simpl.
  repeat (apply NoDup_cons_2;
          [intros H; apply list_elem_of_In in H; simpl in H;
           intuition discriminate|]).
  apply NoDup_nil_2.
Defined.

(** *** Frames *)



(** *** Closing *)

(** Closing an open connection retires that one connection object and
    removes the one registry entry under its identity, leaving every other
    object and entry as it was; the handle, if there was one, is told once;
    and the [close] callback called again for the same object does nothing. *)
Theorem close_removes_exactly_one_entry {Buffer}
    (encodePacket : TeckosPacket → Buffer) (options : option TeckosOptions)
    (evs : list (Event Buffer)) :
  ∃ p, run encodePacket options (UWSProvider_new options) evs = Ok p
    ∧ ∀ w ws, _app p !! w = Some ws → ws_closed ws = false →
        ∃ p1, step encodePacket options p (Close w) = Ok p1
          ∧ _connections p1 = delete (ws_id ws) (_connections p)
          ∧ _app p1 = alter ws_end w (_app p)
          ∧ notices p1
            = notices p ++ match _connections p !! ws_id ws with
                           | Some _ => [Disconnected (ws_id ws)]
                           | None => []
                           end
          ∧ on_close w p1 = p1.
Proof.
  destruct (run_new_total encodePacket options evs) as (p & Hr & Hwf & _).
  exists p. split; [done|]. intros w ws Hw Hcl.
  exists (ws_close w p). split; [done|].
  pose proof (ws_close_connections w p ws Hw Hcl) as Hc.
  pose proof (ws_close_app w p ws Hw Hcl) as Ha.
  split; [done|]. split; [done|]. split.
  - rewrite (ws_close_notices w p ws Hw Hcl).
    destruct (_connections p !! ws_id ws) as [sock|] eqn:Hreg; [|done].
    destruct Hwf as [H1 _]. by destruct (H1 _ _ Hreg) as (-> & _).
  - unfold on_close. rewrite Ha, list_lookup_alter_eq, Hw. simpl.
    by rewrite Hc, lookup_delete_eq.
Qed.

(** *** Sweeps *)

(** A sweep keeps in the registry exactly the handles whose connection had
    its flag set, and leaves each of them with the flag clear; it changes no
    inbox and publishes nothing on the backbone. *)
Theorem sweep_keeps_exactly_the_live {Buffer}
    (encodePacket : TeckosPacket → Buffer) (options : option TeckosOptions)
    (evs : list (Event Buffer)) :
  ∃ p p',
    run encodePacket options (UWSProvider_new options) evs = Ok p
    ∧ step encodePacket options p Timeout = Ok p'
    ∧ (∀ id sock,
         _connections p' !! id = Some sock
         ↔ _connections p !! id = Some sock
           ∧ ∃ ws, _app p !! sock_ws sock = Some ws ∧ ws_alive ws = true)
    ∧ (∀ id sock ws',
         _connections p' !! id = Some sock →
         _app p' !! sock_ws sock = Some ws' → ws_alive ws' = false)
    ∧ ws_inbox <$> _app p' = ws_inbox <$> _app p
    ∧ _pub p' = _pub p.
Proof.
  destruct (run_new_total encodePacket options evs) as (p & Hr & Hwf & _).
  destruct (keepAliveSockets_spec p Hwf)
    as (p' & Hs & Hwf' & Hids & Ha & Hb & Hc).
  exists p, p'. split; [done|]. split; [done|].
  pose proof Hwf as [H1 _].
  assert (∀ id sock,
            _connections p' !! id = Some sock
            ↔ _connections p !! id = Some sock
              ∧ ∃ ws, _app p !! sock_ws sock = Some ws ∧ ws_alive ws = true)
    as Hiff.
  { intros id sock. split.
    - intros Hreg'. destruct (_connections p !! id) as [sock0|] eqn:Hreg;
        [|rewrite (Hc id Hreg) in Hreg'; done].
      destruct (H1 _ _ Hreg) as (_ & ws & Hw & _).
      specialize (Ha _ _ _ Hreg Hw). destruct (ws_alive ws) eqn:Hal.
      + destruct Ha as [Hreg0 _]. assert (sock0 = sock) as -> by congruence.
        eauto.
      + destruct Ha as [Hreg0 _]. congruence.
    - intros (Hreg & ws & Hw & Hal). specialize (Ha _ _ _ Hreg Hw).
      rewrite Hal in Ha. by destruct Ha. }
  split; [done|]. split_and!.
  - intros id sock ws' Hreg' Hw'.
    apply Hiff in Hreg' as (Hreg & ws & Hw & Hal).
    specialize (Ha _ _ _ Hreg Hw). rewrite Hal in Ha. destruct Ha as [_ Ha].
    assert (ws' = ws_probe ws) as -> by congruence. done.
  - apply list_eq. intros w. rewrite !list_lookup_fmap.
    destruct (_app p !! w) as [ws|] eqn:Hw.
    + destruct (step_object encodePacket options p Timeout w ws Hwf Hw)
        as (q & ws' & Hq & Hw' & Hch).
      simpl in Hq. assert (q = p') as -> by congruence. rewrite Hw'. simpl.
      by destruct Hch as [->|[->| ->]].
    + apply lookup_ge_None in Hw.
      assert (length (_app p') = length (_app p)) as Hlen
        by (by rewrite <- (length_fmap ws_id), Hids, length_fmap).
      rewrite (proj2 (lookup_ge_None (_app p') w)); [done|lia].
  - by apply (forEach_keepAlive_pub (Object_keys (_connections p))).
Qed.

(** The only thing ever pinged into a connection is the payload ['hey'] of a
    sweep: after a run, what was pinged to a connection is that payload
    repeated, at most once per sweep of the run. *)
Theorem pings_come_from_sweeps {Buffer}
    (encodePacket : TeckosPacket → Buffer) (options : option TeckosOptions)
    (evs : list (Event Buffer)) :
  ∃ p, run encodePacket options (UWSProvider_new options) evs = Ok p
    ∧ ∀ w ws, _app p !! w = Some ws →
        ∃ k, k ≤ sweeps evs ∧ ws_pings ws = replicate k "hey".
Proof.
  destruct (run_new_total encodePacket options evs) as (p & Hr & _ & _).
  exists p. split; [done|].
  apply (run_pings encodePacket options (UWSProvider_new options) evs p 0);
    [apply wf_new| |done].
  intros w ws Hw. unfold UWSProvider_new in Hw.
  destruct (redisUrl (merge_options options)) as [url|]; [|done].
  destruct (truthy url); [|done]. simpl in Hw.
  by rewrite debug_log_app in Hw.
Qed.

(** ** npm-scripts.mjs *)

Lemma endsWith_nil (suffix : string) :
  endsWith suffix EmptyString = String.eqb EmptyString suffix.
Proof. unfold endsWith. apply orb_false_r. Qed.

Lemma endsWith_cons (suffix : string) c s :
  endsWith suffix (String c s)
  = String.eqb (String c s) suffix || endsWith suffix s.
Proof. reflexivity. Qed.

Lemma endsWith_spec (suffix s : string) :
  endsWith suffix s = true ↔ ∃ stem, s = stem +:+ suffix.
Proof.
  split.
  - induction s as [|c s IH].
    + rewrite endsWith_nil. intros H%String.eqb_eq. by exists EmptyString.
    + rewrite endsWith_cons. intros [H%String.eqb_eq|H]%orb_true_iff.
      * by exists EmptyString.
      * destruct (IH H) as [stem ->]. by exists (String c stem).
  - intros [stem ->]. induction stem as [|c stem IH].
    + change (EmptyString +:+ suffix) with suffix.
      destruct suffix as [|c suffix].
      * by rewrite endsWith_nil.
      * by rewrite endsWith_cons, String.eqb_refl.
    + change (String c stem +:+ suffix) with (String c (stem +:+ suffix)).
      rewrite endsWith_cons, IH. apply orb_true_r.
Qed.

(** [buildBinaries] unpacks the archive exactly when the directory [./uws]
    does not exist or holds a file whose name ends in [.node]; an existing
    directory without such a file is left as it is. *)
Theorem hasNoBinaries_truthy (uws : option (list string)) :
  truthy (hasNoBinaries uws) = true
  ↔ uws = None
    ∨ ∃ files file stem,
        uws = Some files ∧ file ∈ files ∧ file = stem +:+ ".node".
Proof.
  destruct uws as [files|]; simpl; [|split; [by left|done]].
  destruct (List.find (endsWith ".node") files) as [file|] eqn:E; simpl.
  - apply List.find_some in E as [Hin Hend].
    apply endsWith_spec in Hend as [stem ->].
    split; [intros _; right|by destruct stem].
    exists files, (stem +:+ ".node"), stem.
    split; [done|]. split; [by apply list_elem_of_In|done].
  - split; [done|]. intros [?|(files' & file & stem & [= <-] & Hin & ->)];
      [done|].
    apply list_elem_of_In in Hin.
    pose proof (List.find_none _ _ E _ Hin) as Hf.
    assert (endsWith ".node" (stem +:+ ".node") = true) as Ht
      by (apply endsWith_spec; eauto).
    congruence.
Qed.

(** ** Identities are given once *)

(** The connection objects of a state carry, in the order in which they
    opened, the identities generated from the draws of the run: no event
    changes the identity of a connection, and every key of the registry is
    one of these identities. *)
Theorem identities_are_given_once {Buffer}
    (encodePacket : TeckosPacket → Buffer) (options : option TeckosOptions)
    (evs : list (Event Buffer)) :
  ∃ p, run encodePacket options (UWSProvider_new options) evs = Ok p
    ∧ ws_id <$> _app p = generateUUID <$> draws evs
    ∧ ∀ id sock, _connections p !! id = Some sock →
        id ∈ generateUUID <$> draws evs.
Proof.
  destruct (run_new_total encodePacket options evs) as (p & Hr & Hwf & Hid).
  exists p. split; [done|]. split; [done|].
  intros id sock Hreg. change (id ∈ opened evs). rewrite <- Hid.
  by eapply registered_in_ids.
Qed.
